(** * Helm-managed component registry of the OpenDataHub operator

    A shallow embedding of package [helmregistry]
    (internal/controller/helmregistry): the three-tier value merge
    ([MergeValues]), the render pipeline ([RenderTemplates], [Render]),
    the catalog ([Register], [GetComponent]), the chart loader
    ([LoadChart], [extractRHOAIValues]) and the deferred-watch lifecycle
    ([AddWatches], [HasPendingWatchForCRD], [RegisterPendingWatch]); and,
    of the Langfuse component built on it, the values generator
    ([LangfuseValuesFromSpec]), the admission webhook ([validateLangfuse],
    [validateStorageSize]) and the status conditions of the reconciler
    ([updateStatusCondition]).

    Go maps are finite maps with structural equality ([gmap]); a [nil] map is
    [None].  Methods on [*HelmManagedComponent] that write through the pointer
    return the component after the call; methods on the registry return the
    registry after the call. *)

From stdpp Require Import gmap strings list fin_maps pretty.
From Stdlib Require Import ZArith NArith Ascii.

Local Open Scope string_scope.

(** ** Configuration trees ([chartutil.Values]) *)

(** The dynamic values held by a [map[string]interface{}] decoded from YAML or
    built by a values generator: [nil], booleans, numbers, strings, sequences
    ([[]interface{}]) and nested tables ([map[string]interface{}]). *)
#[warnings="-register-all"]
Inductive value : Type :=
  | VNil
  | VBool (b : bool)
  | VInt (z : Z)
  | VString (s : string)
  | VList (l : list value)
  | VTable (m : gmap string value).

Abbreviation table := (gmap string value).

(** [chartutil.Values] is a Go map: [None] is the [nil] map, [Some ∅] the empty
    one.  [len] is 0 for both. *)
Abbreviation Values := (option (gmap string value)).

Definition len (v : Values) : nat :=
  match v with
  | None => 0
  | Some m => size m
  end.

Module chartutil.

(** Modelled from the spec: [istable] belongs to the Helm library, which is not
    among the repository sources; it tells the mappings of section 3 (a
    [map[string]interface{}]) from the other values. *)
Definition istable (v : value) : bool :=
  match v with
  | VTable _ => true
  | _ => false
  end.

(** Modelled from the spec: [chartutil.CoalesceTables] belongs to the Helm
    library, which is not among the repository sources.  This is one pass of
    its loop [for key, val := range src] over the destination [dst], the fold
    of section 4.2 of the specification with the destination as the
    higher-precedence tree: a destination entry that is the absent marker
    deletes the key; a key the destination lacks is copied from the source;
    two tables at one key are merged recursively ([rec]); in every other
    case (scalars, sequences, a table against a non-table) the destination
    keeps its value. *)
Definition coalesceKey (rec : value → value → value)
    (key : string) (val : value) (dst : table) : table :=
  match dst !! key with
  | Some VNil => delete key dst
  | None => <[key := val]> dst
  | Some dv =>
      if istable val then
        if istable dv then <[key := rec dv val]> dst else dst
      else dst
  end.

(** Modelled from the spec: the recursive call of the fold of section 4.2 on
    the two values found at one key (part of the absent Helm library). *)
Fixpoint coalesceValue (dv val : value) {struct val} : value :=
  match val, dv with
  | VTable src, VTable dst => VTable (map_fold (coalesceKey coalesceValue) dst src)
  | _, _ => dv
  end.

(** Modelled from the spec: the fold of section 4.2 over all keys of the
    source (part of the absent Helm library).  Each key is handled on its
    own, so the order in which the keys are visited is immaterial
    ([coalesceTablesFullKey_lookup]). *)
Definition coalesceTablesFullKey (dst src : table) : table :=
  map_fold (coalesceKey coalesceValue) dst src.

(** Modelled from the spec: [CoalesceTables dst src] of the absent Helm
    library merges the source map into the destination map, the destination
    being authoritative (section 4.2).  A [nil] source returns the
    destination, then a [nil] destination returns the source.  The Go
    function does not build a new map: it writes the merge into the map
    [dst] and returns that map, so a caller that keeps [dst] holds the
    merged table afterwards (see [MergeValues]).  A key that only the
    destination binds is left alone here, also when it is bound to the
    absent marker; the theorems for C1 to C10 below do not rest on that last
    case. *)
Definition CoalesceTables (dst src : Values) : Values :=
  match src, dst with
  | None, _ => dst
  | _, None => src
  | Some s, Some d => Some (coalesceTablesFullKey d s)
  end.

End chartutil.

Import chartutil.

(** *** What the fold does at one key *)

(** The binding of [key] after the fold, from the bindings before it. *)
Definition coalesceAt (dv val : option value) : option value :=
  match val with
  | None => dv
  | Some v =>
      match dv with
      | Some VNil => None
      | None => Some v
      | Some d => Some (coalesceValue d v)
      end
  end.

(** ** Errors *)

(** Go [error] values: a sentinel made by [errors.New], a message formatted by
    [fmt.Errorf] without the [%w] verb, and a message that wraps its cause with
    [%w].  [%v] formats a cause into the text without wrapping it. *)
Inductive error : Type :=
  | errors_New (text : string)
  | fmt_Errorf (text : string)
  | fmt_Errorf_w (text : string) (cause : error).

Global Instance error_eq_dec : EqDecision error.
Proof. solve_decision. Defined.

(** The [Error()] method. *)
Definition Error (e : error) : string :=
  match e with
  | errors_New text => text
  | fmt_Errorf text => text
  | fmt_Errorf_w text _ => text
  end.

(** [errors.Is]: [target] is [err] or is found along its chain of [%w] causes. *)
Fixpoint errors_Is (err target : error) : bool :=
  bool_decide (err = target) ||
  match err with
  | fmt_Errorf_w _ cause => errors_Is cause target
  | _ => false
  end.

(** Common errors. *)
Definition ErrChartNotFound : error := errors_New "chart not found".
Definition ErrChartLoadFailed : error := errors_New "chart load failed".
Definition ErrDuplicateComponent : error := errors_New "duplicate component".
Definition ErrInvalidConfig : error := errors_New "invalid component config".
Definition ErrComponentNotFound : error := errors_New "component not found".
Definition ErrValuesGeneration : error := errors_New "values generation failed".
Definition ErrTemplateRendering : error := errors_New "template rendering failed".
Definition ErrInvalidManifest : error := errors_New "invalid manifest".
Definition ErrWatchRegistration : error := errors_New "watch registration failed".
Definition ErrInvalidGVK : error := errors_New "invalid GVK".
Definition ErrDiscoveryFailed : error := errors_New "discovery failed".

(** [fmt.Errorf("%w: %v", sentinel, err)]. *)
Definition wrap_v (sentinel err : error) : error :=
  fmt_Errorf_w (Error sentinel ++ ": " ++ Error err) sentinel.

(** What a Go call that returns [(T, error)] yields. *)
Inductive result (A : Type) : Type :=
  | Ok (a : A)
  | Err (e : error).
Arguments Ok {A} a.
Arguments Err {A} e.

(** A call either returns or ends in a run-time panic (here: calling a [nil]
    function value). *)
Inductive outcome (A : Type) : Type :=
  | Returns (a : A)
  | Panics.
Arguments Returns {A} a.
Arguments Panics {A}.

(** ** Charts, resource types and resource-type definitions *)

(** [chart.File]. *)
Record chart_File : Type := {
  file_Name : string;
  file_Data : string;
}.

(** [chart.Chart], with the fields the package reads. *)
Record chart_Chart : Type := {
  chart_Name : string;
  chart_Version : string;
  chart_Values : Values;
  chart_Templates : list chart_File;
  chart_Files : list chart_File;
}.

(** [schema.GroupVersionKind]. *)
Record GroupVersionKind : Type := {
  Group : string;
  Version : string;
  Kind : string;
}.

Global Instance GroupVersionKind_eq_dec : EqDecision GroupVersionKind.
Proof. solve_decision. Defined.

Global Instance GroupVersionKind_countable : Countable GroupVersionKind.
Proof.
  refine (inj_countable'
    (λ gvk, (Group gvk, Version gvk, Kind gvk))
    (λ t, {| Group := t.1.1; Version := t.1.2; Kind := t.2 |}) _).
  by intros [].
Defined.

(** [apiextensionsv1.CustomResourceDefinitionVersion]. *)
Record CustomResourceDefinitionVersion : Type := {
  ver_Name : string;
  ver_Served : bool;
}.

(** [apiextensionsv1.CustomResourceDefinition]: [Spec.Group],
    [Spec.Names.Kind] and [Spec.Versions]. *)
Record CustomResourceDefinition : Type := {
  crd_Group : string;
  crd_Kind : string;
  crd_Versions : list CustomResourceDefinitionVersion;
}.

(** A [client.Object] handed to a map function: a resource-type definition or
    an object of another type. *)
Inductive client_Object : Type :=
  | CRDObject (crd : CustomResourceDefinition)
  | OtherObject.

(** ** The world outside the package *)

(** The component specification type ([interface{}]) and the library calls
    whose results the package consumes: [filepath.Join], Helm's
    [loader.Load] and [engine.Render], and [yaml.Unmarshal] into a
    [chartutil.Values] and into an [interface{}] (where only the error is
    looked at). *)
Class Env : Type := {
  Spec : Type;
  filepath_Join : string → string → string;
  loader_Load : string → result chart_Chart;
  yaml_Unmarshal_Values : string → result Values;
  yaml_Unmarshal : string → option error;
  engine_Render : chart_Chart → Values → result (gmap string string);
}.

(** [strings.Contains]. *)
Fixpoint strings_Contains (s substr : string) : bool :=
  if String.prefix substr s then true
  else match s with
       | EmptyString => false
       | String _ rest => strings_Contains rest substr
       end.

Section helmregistry.
Context `{Env}.

(** *** Types, registry lookups and watch bookkeeping *)

(** [ComponentConfig]. *)
Record ComponentConfig : Type := {
  cfg_ChartName : string;
  cfg_ValuesGenerator : option (Spec → result Values);
  cfg_Watches : list GroupVersionKind;
}.

(** [HelmManagedComponent]; the mutex is left out, calls are sequential. *)
Record HelmManagedComponent : Type := {
  ChartName : string;
  Chart : option chart_Chart;
  ValuesGenerator : option (Spec → result Values);
  Watches : list GroupVersionKind;
  RHOAIValues : Values;
  pendingWatches : option (gmap GroupVersionKind bool);
}.

Definition set_Chart (c : HelmManagedComponent) (ch : option chart_Chart) :=
  {| ChartName := ChartName c; Chart := ch;
     ValuesGenerator := ValuesGenerator c; Watches := Watches c;
     RHOAIValues := RHOAIValues c; pendingWatches := pendingWatches c |}.

Definition set_RHOAIValues (c : HelmManagedComponent) (v : Values) :=
  {| ChartName := ChartName c; Chart := Chart c;
     ValuesGenerator := ValuesGenerator c; Watches := Watches c;
     RHOAIValues := v; pendingWatches := pendingWatches c |}.

Definition set_pendingWatches (c : HelmManagedComponent)
    (p : option (gmap GroupVersionKind bool)) :=
  {| ChartName := ChartName c; Chart := Chart c;
     ValuesGenerator := ValuesGenerator c; Watches := Watches c;
     RHOAIValues := RHOAIValues c; pendingWatches := p |}.

(** [HelmManagedComponentRegistry]: the [components] map.  Every entry is a
    pointer to a component allocated by [Register], so no two names share
    a component. *)
Definition HelmManagedComponentRegistry : Type := gmap string HelmManagedComponent.

Definition NewHelmManagedComponentRegistry : HelmManagedComponentRegistry := ∅.

Definition GetComponent (r : HelmManagedComponentRegistry) (name : string)
    : option HelmManagedComponent :=
  r !! name.

(** The names come out in the iteration order of the map, which Go leaves
    unspecified. *)
Definition ListComponents (r : HelmManagedComponentRegistry) : list string :=
  (map_to_list r).*1.

Definition HasPendingWatches (c : HelmManagedComponent) : bool :=
  match pendingWatches c with
  | None => false
  | Some p => bool_decide (0 < size p)
  end.

(** Helper function to get served version from CRD. *)
Fixpoint firstServed (versions : list CustomResourceDefinitionVersion) : option string :=
  match versions with
  | [] => None
  | version :: rest =>
      if ver_Served version then Some (ver_Name version) else firstServed rest
  end.

Definition getServedVersion (crd : CustomResourceDefinition) : string :=
  match firstServed (crd_Versions crd) with
  | Some name => name
  | None =>
      match crd_Versions crd with
      | version :: _ => ver_Name version
      | [] => ""
      end
  end.

(** The [GroupVersionKind] built from a definition by
    [HasPendingWatchForCRD] and [RegisterPendingWatch]. *)
Definition crdGVK (crd : CustomResourceDefinition) : GroupVersionKind :=
  {| Group := crd_Group crd; Version := getServedVersion crd; Kind := crd_Kind crd |}.

Definition HasPendingWatchForCRD (c : HelmManagedComponent)
    (crd : CustomResourceDefinition) : bool :=
  match pendingWatches c with
  | None => false
  | Some p =>
      match p !! crdGVK crd with
      | Some pending => pending
      | None => false
      end
  end.

(** [delete] on a [nil] map does nothing. *)
Definition MarkWatchRegistered (c : HelmManagedComponent) (gvk : GroupVersionKind)
    : HelmManagedComponent :=
  set_pendingWatches c (delete gvk <$> pendingWatches c).

(** The reconcile requests, by the name of the requested object. *)
Definition MapCRDToComponent (c : HelmManagedComponent) (obj : client_Object)
    : list string :=
  match obj with
  | OtherObject => []
  | CRDObject crd =>
      if negb (HasPendingWatchForCRD c crd) then [] else [ChartName c]
  end.

Definition RegisterPendingWatch (c : HelmManagedComponent)
    (crd : CustomResourceDefinition) : option error * HelmManagedComponent :=
  if negb (HasPendingWatchForCRD c crd) then (None, c)
  else (None, MarkWatchRegistered c (crdGVK crd)).

(** *** Dynamic watches (watches.go) *)

(** Built-in types have empty group or well-known groups. *)
Definition isBuiltInType (gvk : GroupVersionKind) : bool :=
  bool_decide (Group gvk ∈
    [""; "apps"; "batch"; "networking.k8s.io"; "policy"; "rbac.authorization.k8s.io"]).

(** The simplified implementation installs nothing and reports success. *)
Definition registerWatch (c : HelmManagedComponent) (gvk : GroupVersionKind)
    : option error :=
  None.

(** The body of the loop [for _, gvk := range c.Watches]. *)
Definition addWatch (c : HelmManagedComponent)
    (pending : gmap GroupVersionKind bool) (gvk : GroupVersionKind)
    : gmap GroupVersionKind bool :=
  if isBuiltInType gvk then
    match registerWatch c gvk with
    | Some _ => pending
    | None => pending
    end
  else <[gvk := true]> pending.

(** The controller and the event handler are only handed on to
    [registerWatch], which ignores them. *)
Definition AddWatches (c : HelmManagedComponent) : option error * HelmManagedComponent :=
  let pending :=
    match pendingWatches c with
    | None => ∅
    | Some p => p
    end in
  (None, set_pendingWatches c (Some (foldl (addWatch c) pending (Watches c)))).

(** *** Chart loading (loader.go) *)

(** The loop [for _, file := range c.Chart.Files]: the first file named
    [values.rhoai.yaml] decides; without one the override tree is empty. *)
Fixpoint extractRHOAIValuesFrom (files : list chart_File) (c : HelmManagedComponent)
    : option error * HelmManagedComponent :=
  match files with
  | [] => (None, set_RHOAIValues c (Some ∅))
  | file :: rest =>
      if bool_decide (file_Name file = "values.rhoai.yaml") then
        match yaml_Unmarshal_Values (file_Data file) with
        | Ok rhoaiValues => (None, set_RHOAIValues c rhoaiValues)
        | Err err =>
            (Some (fmt_Errorf_w ("invalid values.rhoai.yaml: " ++ Error err) err), c)
        end
      else extractRHOAIValuesFrom rest c
  end.

Definition extractRHOAIValues (c : HelmManagedComponent)
    : option error * HelmManagedComponent :=
  match Chart c with
  | None => (Some (fmt_Errorf "chart not loaded"), c)
  | Some chart => extractRHOAIValuesFrom (chart_Files chart) c
  end.

(** What [LoadChart] leaves behind: its error, the component, and the paths
    it handed to [loader.Load], in order. *)
Record Loaded : Type := {
  load_err : option error;
  load_component : HelmManagedComponent;
  load_paths : list string;
}.

(** The tail of [LoadChart] once a chart is at hand: store it, then extract
    the platform overrides and drop the error of that step. *)
Definition storeChart (c : HelmManagedComponent) (chart : chart_Chart)
    (paths : list string) : Loaded :=
  let c := set_Chart c (Some chart) in
  let '(_, c) := extractRHOAIValues c in
  {| load_err := None; load_component := c; load_paths := paths |}.

Definition LoadChart (c : HelmManagedComponent) (chartPath : string) : Loaded :=
  let fullPath := filepath_Join "charts" (chartPath ++ ".tgz") in
  match loader_Load fullPath with
  | Ok chart => storeChart c chart [fullPath]
  | Err _ =>
      let dirPath := filepath_Join "charts" chartPath in
      match loader_Load dirPath with
      | Ok chart => storeChart c chart [fullPath; dirPath]
      | Err err =>
          {| load_err := Some (fmt_Errorf_w
               ("failed to load chart from " ++ fullPath ++ " or " ++ dirPath
                  ++ ": " ++ Error err) err);
             load_component := c; load_paths := [fullPath; dirPath] |}
      end
  end.

(** *** Value merging *)

(** [v != nil && len(v) > 0]. *)
Definition nonEmpty (v : Values) : bool :=
  match v with
  | None => false
  | Some _ => bool_decide (0 < len v)
  end.

(** [MergeValues] returns the merged values and the component after the
    call.  Step 2 passes the map held in [c.RHOAIValues] as the destination
    of [CoalesceTables], which merges into it: afterwards that field holds
    the merged table.  Step 3 merges into the caller's map
    [componentValues], which the component does not keep.

    [CoalesceTables] copies an entry that the destination lacks by
    reference: a table of the chart defaults that step 2 puts into the
    override tree is, in Go, one map that both trees reach, and what a
    later call deletes from it is gone from the chart defaults too.  Here
    the table is copied and the chart stays as it was.  On a component whose
    trees share no table (as [Register] leaves it), the merged values and
    the override tree of the first and of the second call are the same in
    both readings: the second call merges such a table into itself, which
    deletes its null entries and keeps the rest, in place or on a copy.
    The chart defaults after a call are not what this definition is
    about. *)
Definition MergeValues (c : HelmManagedComponent) (componentValues : Values)
    : Values * HelmManagedComponent :=
  match Chart c with
  | None => (componentValues, c)
  | Some chart =>
      (* Step 1: Start with chart default values *)
      let result := chart_Values chart in
      (* Step 2: Merge RHOAI overrides (RHOAI wins over chart defaults) *)
      let '(result, c) :=
        if nonEmpty (RHOAIValues c) then
          let merged := CoalesceTables (RHOAIValues c) result in
          (merged, set_RHOAIValues c merged)
        else (result, c) in
      (* Step 3: Merge component config (component wins over all) *)
      let result :=
        if nonEmpty componentValues then CoalesceTables componentValues result
        else result in
      (result, c)
  end.

(** *** Template rendering *)

(** Excludes: NOTES.txt, tests/, hooks/. *)
Definition shouldExcludeFile (filename : string) : bool :=
  if strings_Contains filename "NOTES.txt" then true
  else if strings_Contains filename "/tests/" then true
  else if strings_Contains filename "/hooks/" then true
  else false.

Definition validateYAML (content : string) : option error :=
  yaml_Unmarshal content.

(** The body of the loop [for filename, content := range manifests], with
    its early [return] on the first entry that is kept and does not parse. *)
Definition filterManifest (filename content : string)
    (acc : result (gmap string string)) : result (gmap string string) :=
  match acc with
  | Ok filtered =>
      if shouldExcludeFile filename then Ok filtered
      else
        match validateYAML content with
        | Some err =>
            Err (fmt_Errorf_w
                   ("invalid YAML in " ++ filename ++ ": " ++ Error err) err)
        | None => Ok (<[filename := content]> filtered)
        end
  | Err err => Err err
  end.

Definition RenderTemplates (c : HelmManagedComponent) (values : Values)
    : result (gmap string string) :=
  match Chart c with
  | None => Err (fmt_Errorf "chart not loaded")
  | Some chart =>
      match engine_Render chart values with
      | Ok manifests => map_fold filterManifest (Ok ∅) manifests
      | Err err =>
          Err (fmt_Errorf_w ("template rendering failed: " ++ Error err) err)
      end
  end.

(** *** Registration and rendering through the registry *)

Definition validateComponentConfig (config : ComponentConfig) : option error :=
  if bool_decide (cfg_ChartName config = "") then
    Some (fmt_Errorf "ChartName cannot be empty")
  else
    match cfg_ValuesGenerator config with
    | None => Some (fmt_Errorf "ValuesGenerator cannot be nil")
    | Some _ => None
    end.

(** What [Register] leaves behind: its error, the registry, and the paths
    handed to [loader.Load] during the call. *)
Record Registered : Type := {
  reg_err : option error;
  reg_registry : HelmManagedComponentRegistry;
  reg_loads : list string;
}.

Definition Register (r : HelmManagedComponentRegistry) (name : string)
    (config : ComponentConfig) : Registered :=
  (* Validate component config *)
  match validateComponentConfig config with
  | Some err =>
      {| reg_err := Some (wrap_v ErrInvalidConfig err);
         reg_registry := r; reg_loads := [] |}
  | None =>
      (* Check for duplicate registration *)
      match r !! name with
      | Some _ =>
          {| reg_err := Some (fmt_Errorf_w
               (Error ErrDuplicateComponent ++ ": component '" ++ name
                  ++ "' already registered") ErrDuplicateComponent);
             reg_registry := r; reg_loads := [] |}
      | None =>
          (* Create component *)
          let component :=
            {| ChartName := cfg_ChartName config; Chart := None;
               ValuesGenerator := cfg_ValuesGenerator config;
               Watches := cfg_Watches config;
               RHOAIValues := None; pendingWatches := Some ∅ |} in
          (* Load chart *)
          let loaded := LoadChart component (cfg_ChartName config) in
          match load_err loaded with
          | Some err =>
              {| reg_err := Some (wrap_v ErrChartLoadFailed err);
                 reg_registry := r; reg_loads := load_paths loaded |}
          | None =>
              (* Store component in registry *)
              {| reg_err := None;
                 reg_registry := <[name := load_component loaded]> r;
                 reg_loads := load_paths loaded |}
          end
      end
  end.

(** [Render] yields what the call returns and the registry after the call:
    the component it rendered is the one the registry points to, and
    [MergeValues] writes to it. *)
Definition Render (r : HelmManagedComponentRegistry) (name : string) (spec : Spec)
    : outcome (result (gmap string string)) * HelmManagedComponentRegistry :=
  (* Retrieve component from registry *)
  match GetComponent r name with
  | None =>
      (Returns (Err (fmt_Errorf_w
              (Error ErrComponentNotFound ++ ": component '" ++ name
                 ++ "' not registered") ErrComponentNotFound)), r)
  | Some component =>
      (* Generate values from component spec *)
      match ValuesGenerator component with
      | None => (Panics, r)
      | Some generate =>
          match generate spec with
          | Err err => (Returns (Err (wrap_v ErrValuesGeneration err)), r)
          | Ok componentValues =>
              (* Merge values with precedence: component > RHOAI > chart defaults *)
              let '(finalValues, component) := MergeValues component componentValues in
              let r := <[name := component]> r in
              (* Render templates using Helm engine *)
              match RenderTemplates component finalValues with
              | Err err => (Returns (Err (wrap_v ErrTemplateRendering err)), r)
              | Ok manifests => (Returns (Ok manifests), r)
              end
          end
      end
  end.

(** *** Reading the state *)

(** The binding of a key in a [chartutil.Values]; a [nil] map binds nothing. *)
Definition valueAt (v : Values) (key : string) : option value :=
  v ≫= (.!! key).

(** Strings, numbers and booleans: the values that are neither the absent
    marker, nor a sequence, nor a table. *)
Definition isScalar (v : value) : bool :=
  match v with
  | VBool _ | VInt _ | VString _ => true
  | _ => false
  end.

(** The candidate's (group, served version, kind) is the descriptor's tuple. *)
Definition matchesCRD (gvk : GroupVersionKind) (crd : CustomResourceDefinition) : Prop :=
  Group gvk = crd_Group crd ∧ Version gvk = getServedVersion crd ∧ Kind gvk = crd_Kind crd.

(** A descriptor is pending when the pending-watch map binds it to [true];
    it is active otherwise. *)
Definition isPending (c : HelmManagedComponent) (gvk : GroupVersionKind) : bool :=
  match pendingWatches c with
  | None => false
  | Some p => bool_decide (p !! gvk = Some true)
  end.

(** The calls that the reconciler and the event handlers make on a
    component once its watches have been set up.  [AddWatches] is the
    set-up itself, called once during controller setup
    (contracts/watch-api.md, Thread Safety): it computes which descriptors
    start out pending. *)
Inductive ComponentCall : Type :=
  | CallHasPendingWatches
  | CallHasPendingWatchForCRD (crd : CustomResourceDefinition)
  | CallMapCRDToComponent (obj : client_Object)
  | CallMarkWatchRegistered (gvk : GroupVersionKind)
  | CallRegisterPendingWatch (crd : CustomResourceDefinition)
  | CallLoadChart (chartPath : string)
  | CallMergeValues (componentValues : Values)
  | CallRenderTemplates (values : Values).

(** The component after a call. *)
Definition afterCall (c : HelmManagedComponent) (call : ComponentCall)
    : HelmManagedComponent :=
  match call with
  | CallHasPendingWatches => c
  | CallHasPendingWatchForCRD _ => c
  | CallMapCRDToComponent _ => c
  | CallMarkWatchRegistered gvk => MarkWatchRegistered c gvk
  | CallRegisterPendingWatch crd => (RegisterPendingWatch c crd).2
  | CallLoadChart chartPath => load_component (LoadChart c chartPath)
  | CallMergeValues componentValues => (MergeValues c componentValues).2
  | CallRenderTemplates _ => c
  end.

Definition afterCalls (c : HelmManagedComponent) (calls : list ComponentCall)
    : HelmManagedComponent :=
  foldl afterCall c calls.

(** *** Sequences of calls *)

(** The calls on a component over its whole life: the set-up of its
    watches, which may be repeated, and the calls of [ComponentCall]. *)
Inductive LifecycleCall : Type :=
  | CallAddWatches
  | CallLater (call : ComponentCall).

Definition afterLifecycleCall (c : HelmManagedComponent) (call : LifecycleCall)
    : HelmManagedComponent :=
  match call with
  | CallAddWatches => (AddWatches c).2
  | CallLater call => afterCall c call
  end.

Definition afterLifecycleCalls (c : HelmManagedComponent) (calls : list LifecycleCall)
    : HelmManagedComponent :=
  foldl afterLifecycleCall c calls.

(** The exported operations on a registry: [Register], [Render], and a
    method called through the pointer that [GetComponent] hands out, which
    writes to the component that the registry holds. *)
Inductive RegistryCall : Type :=
  | CallRegister (name : string) (config : ComponentConfig)
  | CallRender (name : string) (spec : Spec)
  | CallComponent (name : string) (call : LifecycleCall).

(** The registry after a call. *)
Definition afterRegistryCall (r : HelmManagedComponentRegistry) (call : RegistryCall)
    : HelmManagedComponentRegistry :=
  match call with
  | CallRegister name config => reg_registry (Register r name config)
  | CallRender name spec => (Render r name spec).2
  | CallComponent name call =>
      match GetComponent r name with
      | Some c => <[name := afterLifecycleCall c call]> r
      | None => r
      end
  end.

Definition afterRegistryCalls (r : HelmManagedComponentRegistry)
    (calls : list RegistryCall) : HelmManagedComponentRegistry :=
  foldl afterRegistryCall r calls.

(** The override file that [extractRHOAIValues] reads: the first chart file
    named [values.rhoai.yaml]. *)
Definition overridesFile (chart : chart_Chart) : option chart_File :=
  find (λ f, bool_decide (file_Name f = "values.rhoai.yaml")) (chart_Files chart).

(** The markers of [shouldExcludeFile]. *)
Definition excludedMarkers : list string := ["NOTES.txt"; "/tests/"; "/hooks/"].

(** The pending map of a component holds custom types that the component
    watches, each bound to [true]. *)
Definition pendingWithin (c : HelmManagedComponent)
    (watches : list GroupVersionKind) : Prop :=
  ∀ p gvk b, pendingWatches c = Some p → p !! gvk = Some b →
    b = true ∧ gvk ∈ watches ∧ isBuiltInType gvk = false.

(** Every component of the catalog has its chart, its generator, a chart
    name and a pending map. *)
Definition complete (r : HelmManagedComponentRegistry) : Prop :=
  ∀ name c, GetComponent r name = Some c →
    is_Some (Chart c) ∧ is_Some (ValuesGenerator c)
    ∧ ChartName c ≠ "" ∧ is_Some (pendingWatches c).

End helmregistry.

(** *** Mock types for testing *)

(** [MockController]; a [predicate.Predicate] is an opaque value. *)
Record MockController (Predicate : Type) : Type := {
  mock_watches : list GroupVersionKind;
  mock_predicates : list Predicate;
}.
Arguments mock_watches {Predicate} m.
Arguments mock_predicates {Predicate} m.

Definition NewMockController {Predicate : Type} : MockController Predicate :=
  {| mock_watches := []; mock_predicates := [] |}.

(** [Watch] records the predicates of a watch registration; the source and
    the handler are not looked at. *)
Definition Watch {Predicate : Type} (m : MockController Predicate)
    (predicates : list Predicate) : option error * MockController Predicate :=
  (None, {| mock_watches := mock_watches m;
            mock_predicates := (mock_predicates m ++ predicates)%list |}).

Definition WatchCount {Predicate : Type} (m : MockController Predicate) : nat :=
  length (mock_watches m).

Definition GetPredicates {Predicate : Type} (m : MockController Predicate)
    : list Predicate :=
  ([] ++ mock_predicates m)%list.

(** ** Regular expressions (package [regexp]) *)

Module regexp.

(** The syntax tree of a pattern ([regexp/syntax]), with the operators that
    the patterns of this repository use.  A character class is a list of
    inclusive byte ranges; the patterns are ASCII, and a byte of a multi-byte
    character lies in none of their classes. *)
Inductive Regexp : Type :=
  | OpNoMatch
  | OpEmptyMatch
  | OpCharClass (ranges : list (ascii * ascii))
  | OpConcat (r1 r2 : Regexp)
  | OpAlternate (r1 r2 : Regexp)
  | OpStar (r : Regexp).

(** A literal character, [r+] and [r?]. *)
Definition OpLiteral (c : ascii) : Regexp := OpCharClass [(c, c)].
Definition OpPlus (r : Regexp) : Regexp := OpConcat r (OpStar r).
Definition OpQuest (r : Regexp) : Regexp := OpAlternate r OpEmptyMatch.

Definition inRange (c : ascii) (range : ascii * ascii) : bool :=
  (N_of_ascii range.1 <=? N_of_ascii c)%N && (N_of_ascii c <=? N_of_ascii range.2)%N.

Definition inClass (c : ascii) (ranges : list (ascii * ascii)) : bool :=
  existsb (inRange c) ranges.

(** The strings a pattern matches as a whole. *)
Inductive Matches : Regexp → string → Prop :=
  | Matches_empty : Matches OpEmptyMatch ""
  | Matches_class c ranges :
      inClass c ranges = true → Matches (OpCharClass ranges) (String c "")
  | Matches_concat r1 r2 s1 s2 :
      Matches r1 s1 → Matches r2 s2 → Matches (OpConcat r1 r2) (s1 ++ s2)
  | Matches_left r1 r2 s : Matches r1 s → Matches (OpAlternate r1 r2) s
  | Matches_right r1 r2 s : Matches r2 s → Matches (OpAlternate r1 r2) s
  | Matches_star_nil r : Matches (OpStar r) ""
  | Matches_star_app r s1 s2 :
      Matches r s1 → Matches (OpStar r) s2 → Matches (OpStar r) (s1 ++ s2).

(** Whether the pattern matches the empty string. *)
Fixpoint nullable (r : Regexp) : bool :=
  match r with
  | OpNoMatch => false
  | OpEmptyMatch => true
  | OpCharClass _ => false
  | OpConcat r1 r2 => nullable r1 && nullable r2
  | OpAlternate r1 r2 => nullable r1 || nullable r2
  | OpStar _ => true
  end.

(** The pattern for what may follow the character [c]. *)
Fixpoint derive (c : ascii) (r : Regexp) : Regexp :=
  match r with
  | OpNoMatch => OpNoMatch
  | OpEmptyMatch => OpNoMatch
  | OpCharClass ranges => if inClass c ranges then OpEmptyMatch else OpNoMatch
  | OpConcat r1 r2 =>
      if nullable r1 then OpAlternate (OpConcat (derive c r1) r2) (derive c r2)
      else OpConcat (derive c r1) r2
  | OpAlternate r1 r2 => OpAlternate (derive c r1) (derive c r2)
  | OpStar r1 => OpConcat (derive c r1) (OpStar r1)
  end.

(** Matching a whole text, character by character. *)
Fixpoint matchText (r : Regexp) (s : string) : bool :=
  match s with
  | EmptyString => nullable r
  | String c rest => matchText (derive c r) rest
  end.

(** [regexp.MatchString] for a pattern of the form [^r$], given by the tree
    of [r]: without the flag [m] the two anchors stand for the beginning and
    the end of the text, so the text matches when [r] matches all of it.  The
    error is that of compiling the pattern; a tree is a pattern that
    compiled. *)
Definition MatchString (pattern : Regexp) (s : string) : result bool :=
  Ok (matchText pattern s).

End regexp.

(** ** API types ([api/common], [api/components/v1alpha1]) *)

Module common.

(** [common.ManifestsConfig], with the field that the package reads. *)
Record ManifestsConfig : Type := {
  URI : string;
}.

(** [common.DevFlags].  [Manifests] is a slice; the package takes its length
    and ranges over it, which does not tell [nil] from empty. *)
Record DevFlags : Type := {
  Manifests : list ManifestsConfig;
}.

(** [common.Condition], with the fields that the reconciler sets;
    [metav1.Time] is a number of seconds. *)
Record Condition : Type := {
  cond_Type : string;
  cond_Status : string;
  cond_Reason : string;
  cond_Message : string;
  cond_LastTransitionTime : Z;
}.

End common.

Module v1alpha1.

Definition LangfuseComponentName : string := "langfuse".

(** The name of the Langfuse instance singleton. *)
Definition LangfuseInstanceName : string := "default-" ++ LangfuseComponentName.

Definition LangfuseKind : string := "Langfuse".

(** [LangfuseFeatures]. *)
Record LangfuseFeatures : Type := {
  ExperimentalFeaturesEnabled : bool;
  TracingEnabled : bool;
  StorageSize : string;
}.

(** [LangfuseCommonSpec]; the embedded [common.DevFlagsSpec] contributes the
    pointer [DevFlags]. *)
Record LangfuseCommonSpec : Type := {
  DevFlags : option common.DevFlags;
  Features : LangfuseFeatures;
}.

(** [Langfuse]: the name of its metadata and its specification, which is the
    embedded [LangfuseCommonSpec]. *)
Record Langfuse : Type := {
  langfuse_Name : string;
  langfuse_Spec : LangfuseCommonSpec;
}.

(** [DSCLangfuse]: the management state ([operatorv1.ManagementState], a
    string) and the embedded [LangfuseCommonSpec]. *)
Record DSCLangfuse : Type := {
  ManagementState : string;
  dsc_Spec : LangfuseCommonSpec;
}.

End v1alpha1.

(** ** The values generator of Langfuse (package [helmregistry]) *)

(** What a [spec interface{}] holds: a [*componentsv1alpha1.DSCLangfuse],
    which may be the nil pointer, or a value of another type, given by the
    text that [%T] prints for it ([<nil>] for the nil interface). *)
Inductive spec_value : Type :=
  | DSCLangfusePointer (langfuseSpec : option v1alpha1.DSCLangfuse)
  | OtherSpec (typeName : string).

(** [LangfuseValuesFromSpec].  The type assertion accepts every
    [*DSCLangfuse]; reading [langfuseSpec.Features] through the nil pointer
    is a run-time panic.  The loop over [DevFlags.Manifests] only discards
    its elements. *)
Definition LangfuseValuesFromSpec (spec : spec_value) : outcome (result Values) :=
  match spec with
  | OtherSpec typeName =>
      Returns (Err (fmt_Errorf
        ("expected *componentsv1alpha1.DSCLangfuse, got " ++ typeName)))
  | DSCLangfusePointer None => Panics
  | DSCLangfusePointer (Some langfuseSpec) =>
      let features := v1alpha1.Features (v1alpha1.dsc_Spec langfuseSpec) in
      Returns (Ok (Some
        {[ "langfuse" := VTable
             {[ "features" := VTable
                  {[ "experimentalEnabled" :=
                       VBool (v1alpha1.ExperimentalFeaturesEnabled features);
                     "tracingEnabled" := VBool (v1alpha1.TracingEnabled features) ]};
                "persistence" := VTable
                  {[ "size" := VString (v1alpha1.StorageSize features) ]} ]} ]}))
  end.

(** The table at a key, and the features that a values tree spells out. *)
Definition tableAt (m : gmap string value) (key : string) : option (gmap string value) :=
  match m !! key with
  | Some (VTable t) => Some t
  | _ => None
  end.

Definition featuresOf (values : Values) : option v1alpha1.LangfuseFeatures :=
  top ← values;
  langfuse ← tableAt top "langfuse";
  features ← tableAt langfuse "features";
  persistence ← tableAt langfuse "persistence";
  match features !! "experimentalEnabled", features !! "tracingEnabled",
        persistence !! "size" with
  | Some (VBool experimental), Some (VBool tracing), Some (VString size) =>
      Some {| v1alpha1.ExperimentalFeaturesEnabled := experimental;
              v1alpha1.TracingEnabled := tracing;
              v1alpha1.StorageSize := size |}
  | _, _, _ => None
  end.

(** ** The admission webhook and the reconciler of Langfuse (package [langfuse]) *)

Module langfuse.

Import regexp.

(** [admission.Warnings]. *)
Definition Warnings : Type := list string.

(** What a [runtime.Object] holds: a [*componentsv1alpha1.Langfuse], which
    may be the nil pointer, or an object of another type, given by the text
    that [%T] prints for it. *)
Inductive runtime_Object : Type :=
  | LangfusePointer (langfuse : option v1alpha1.Langfuse)
  | OtherType (typeName : string).

Definition digit : Regexp := OpCharClass [("0", "9")]%char.

(** The pattern [^[0-9]+(\.[0-9]+)?([EPTGMK]i?)?$] of [validateStorageSize],
    between its anchors. *)
Definition pattern : Regexp :=
  OpConcat (OpPlus digit)
    (OpConcat
       (OpQuest (OpConcat (OpLiteral ".") (OpPlus digit)))
       (OpQuest
          (OpConcat
             (OpCharClass [("E", "E"); ("P", "P"); ("T", "T");
                           ("G", "G"); ("M", "M"); ("K", "K")]%char)
             (OpQuest (OpLiteral "i"))))).

(** The pattern [^[0-9]+[EPTGMK]i?$] that the schema of
    [LangfuseFeatures.StorageSize] carries (kubebuilder:validation:Pattern),
    between its anchors. *)
Definition schemaPattern : Regexp :=
  OpConcat (OpPlus digit)
    (OpConcat
       (OpCharClass [("E", "E"); ("P", "P"); ("T", "T");
                     ("G", "G"); ("M", "M"); ("K", "K")]%char)
       (OpQuest (OpLiteral "i"))).

(** [validateStorageSize] validates the Kubernetes resource quantity format. *)
Definition validateStorageSize (size : string) : option error :=
  match MatchString pattern size with
  | Err err => Some (fmt_Errorf_w ("regex error: " ++ Error err) err)
  | Ok matched =>
      if negb matched then
        Some (fmt_Errorf
          ("must be valid Kubernetes quantity (e.g., 10Gi, 100Mi), got " ++ size))
      else None
  end.

(** The loop [for i, manifest := range langfuse.Spec.DevFlags.Manifests],
    from index [i] on. *)
Fixpoint checkManifests (i : nat) (manifests : list common.ManifestsConfig)
    : option error :=
  match manifests with
  | [] => None
  | manifest :: rest =>
      if bool_decide (common.URI manifest = "") then
        Some (fmt_Errorf ("devFlags.manifests[" ++ pretty i ++ "].uri cannot be empty"))
      else checkManifests (S i) rest
  end.

(** [validateLangfuse] performs the validation on a Langfuse CR; it returns
    its warnings or an error. *)
Definition validateLangfuse (langfuse : v1alpha1.Langfuse) : result Warnings :=
  let warnings : Warnings := [] in
  let features := v1alpha1.Features (v1alpha1.langfuse_Spec langfuse) in
  (* Validate instance name (must be default-langfuse) *)
  if negb (bool_decide (v1alpha1.langfuse_Name langfuse = v1alpha1.LangfuseInstanceName))
  then
    Err (fmt_Errorf ("Langfuse name must be " ++ v1alpha1.LangfuseInstanceName
                       ++ ", got " ++ v1alpha1.langfuse_Name langfuse))
  else
    (* Validate storage size format if specified *)
    match (if negb (bool_decide (v1alpha1.StorageSize features = ""))
           then validateStorageSize (v1alpha1.StorageSize features)
           else None) with
    | Some err => Err (fmt_Errorf_w ("invalid storageSize: " ++ Error err) err)
    | None =>
        (* Warn if experimental features are enabled *)
        let warnings :=
          if v1alpha1.ExperimentalFeaturesEnabled features then
            (warnings ++
               ["Experimental features are enabled - not recommended for production"])%list
          else warnings in
        (* Validate DevFlags manifests if present *)
        match v1alpha1.DevFlags (v1alpha1.langfuse_Spec langfuse) with
        | Some devFlags =>
            if bool_decide (0 < length (common.Manifests devFlags)) then
              let warnings :=
                (warnings ++
                   ["DevFlags manifests are set - ensure manifests are from trusted sources"])%list in
              match checkManifests 0 (common.Manifests devFlags) with
              | Some err => Err err
              | None => Ok warnings
              end
            else Ok warnings
        | None => Ok warnings
        end
    end.

(** [ValidateCreate], [ValidateUpdate] and [ValidateDelete].  The type
    assertion accepts every [*Langfuse]; [validateLangfuse] reads
    [langfuse.Name] first, which panics for the nil pointer. *)
Definition ValidateCreate (obj : runtime_Object) : outcome (result Warnings) :=
  match obj with
  | OtherType typeName =>
      Returns (Err (fmt_Errorf ("expected Langfuse but got " ++ typeName)))
  | LangfusePointer None => Panics
  | LangfusePointer (Some langfuse) => Returns (validateLangfuse langfuse)
  end.

Definition ValidateUpdate (oldObj newObj : runtime_Object)
    : outcome (result Warnings) :=
  match newObj with
  | OtherType typeName =>
      Returns (Err (fmt_Errorf ("expected Langfuse but got " ++ typeName)))
  | LangfusePointer None => Panics
  | LangfusePointer (Some langfuse) => Returns (validateLangfuse langfuse)
  end.

Definition ValidateDelete (obj : runtime_Object) : outcome (result Warnings) :=
  Returns (Ok []).

(** The loop of [updateStatusCondition]: the first condition of the type of
    [condition] is overwritten; [None] when there is none ([found] stays
    false). *)
Fixpoint replaceCondition (conditions : list common.Condition)
    (condition : common.Condition) : option (list common.Condition) :=
  match conditions with
  | [] => None
  | c :: rest =>
      if bool_decide (common.cond_Type c = common.cond_Type condition) then
        Some (condition :: rest)
      else (c ::.) <$> replaceCondition rest condition
  end.

(** [updateStatusCondition], up to the call of [SetConditions]: from the
    conditions that [GetConditions] returns, the conditions that the function
    stores in the status before it sends the status to the cluster (an error
    of that update is only logged).  [now] is the result of [metav1.Now()]. *)
Definition updateStatusCondition (now : Z) (conditions : list common.Condition)
    (condition : common.Condition) : list common.Condition :=
  (* Update condition timestamp *)
  let condition :=
    {| common.cond_Type := common.cond_Type condition;
       common.cond_Status := common.cond_Status condition;
       common.cond_Reason := common.cond_Reason condition;
       common.cond_Message := common.cond_Message condition;
       common.cond_LastTransitionTime := now |} in
  (* Find existing condition or append new one *)
  match replaceCondition conditions condition with
  | Some conditions => conditions
  | None => (conditions ++ [condition])%list
  end.

(** The numbers and the unit suffixes that [pattern] spells. *)
Definition isDigit (c : ascii) : bool := inRange c ("0", "9")%char.

Fixpoint allDigits (s : string) : bool :=
  match s with
  | EmptyString => true
  | String c rest => isDigit c && allDigits rest
  end.

Definition isNumber (s : string) : Prop := s ≠ "" ∧ allDigits s = true.

Definition units : list string := ["E"; "P"; "T"; "G"; "M"; "K"].

Definition isUnit (s : string) : Prop :=
  ∃ u, u ∈ units ∧ (s = u ∨ s = u ++ "i").

(** The warnings of an accepted Langfuse. *)
Definition warningsOf (langfuse : v1alpha1.Langfuse) : Warnings :=
  ((if v1alpha1.ExperimentalFeaturesEnabled
         (v1alpha1.Features (v1alpha1.langfuse_Spec langfuse))
    then ["Experimental features are enabled - not recommended for production"]
    else [])
   ++ match v1alpha1.DevFlags (v1alpha1.langfuse_Spec langfuse) with
      | Some devFlags =>
          if bool_decide (common.Manifests devFlags = []) then []
          else ["DevFlags manifests are set - ensure manifests are from trusted sources"]
      | None => []
      end)%list.

(** What [validateLangfuse] asks of a Langfuse. *)
Definition acceptable (langfuse : v1alpha1.Langfuse) : Prop :=
  v1alpha1.langfuse_Name langfuse = "default-langfuse"
  ∧ (v1alpha1.StorageSize (v1alpha1.Features (v1alpha1.langfuse_Spec langfuse)) = ""
     ∨ validateStorageSize
         (v1alpha1.StorageSize (v1alpha1.Features (v1alpha1.langfuse_Spec langfuse)))
       = None)
  ∧ (∀ devFlags manifest,
       v1alpha1.DevFlags (v1alpha1.langfuse_Spec langfuse) = Some devFlags →
       manifest ∈ common.Manifests devFlags → common.URI manifest ≠ "").

(** The condition as [updateStatusCondition] stores it. *)
Definition stamped (now : Z) (condition : common.Condition) : common.Condition :=
  {| common.cond_Type := common.cond_Type condition;
     common.cond_Status := common.cond_Status condition;
     common.cond_Reason := common.cond_Reason condition;
     common.cond_Message := common.cond_Message condition;
     common.cond_LastTransitionTime := now |}.

(** Whether a condition is of the given type. *)
Definition hasType (type : string) (c : common.Condition) : bool :=
  bool_decide (common.cond_Type c = type).

End langfuse.

(** ** A small world to run the package in

    Charts on disk, a YAML decoder that knows a handful of documents, and a
    template engine that knows one action, [{{ toYaml .Values }}]. *)
Module Demo.

Definition showValue (v : value) : string :=
  match v with
  | VNil => "null"
  | VBool true => "true"
  | VBool false => "false"
  | VInt z => pretty z
  | VString s => s
  | VList _ => "[...]"
  | VTable _ => "{...}"
  end.

(** The values in YAML flow style, one entry per key. *)
Definition dump (values : Values) : string :=
  match values with
  | None => "{}"
  | Some m =>
      "{" ++ String.concat ", "
               ((λ '(key, v), key ++ ": " ++ showValue v) <$> map_to_list m)
          ++ "}"
  end.

(** What [toYaml] prints for the value that a template reaches. *)
Definition toYaml (v : option value) : string :=
  match v with
  | None => "null"
  | Some (VTable m) => dump (Some m)
  | Some v => showValue v
  end.

(** Of the values it is given, the engine hands a template the entry
    [Values] as [.Values] (and the entries [Release] and [Capabilities],
    which the package never sets); no other entry of the tree reaches a
    template.  A template that consists of [{{ toYaml .Values }}] prints that
    entry, and a template without actions renders to its own text. *)
Definition renderTemplate (values : Values) (template : chart_File) : string :=
  if bool_decide (file_Data template = "{{ toYaml .Values }}") then
    toYaml (valueAt values "Values")
  else file_Data template.

(** The template [{{] does not parse. *)
Definition render (chart : chart_Chart) (values : Values)
    : result (gmap string string) :=
  if bool_decide (Exists (λ t, file_Data t = "{{") (chart_Templates chart)) then
    Err (fmt_Errorf "template: unclosed action")
  else
    Ok (list_to_map
          ((λ t, (chart_Name chart ++ "/" ++ file_Name t, renderTemplate values t))
             <$> chart_Templates chart)).

Definition unmarshalValues (data : string) : result Values :=
  if bool_decide (data = "") then Ok None
  else if bool_decide (data = "replicas: 2") then Ok (Some {[ "replicas" := VInt 2 ]})
  else Err (fmt_Errorf "yaml: did not find expected node content").

Definition unmarshal (data : string) : option error :=
  if strings_Contains data "[unclosed" then
    Some (fmt_Errorf "yaml: did not find expected ',' or ']'")
  else None.

(** [values.yaml] of this chart has the mapping [Values], which the
    templates see, with [replicas: 1] and [existingSecret:] (no value, that
    is null) in it; [values.rhoai.yaml] reads [replicas: 2]. *)
Definition langfuseChart : chart_Chart :=
  {| chart_Name := "langfuse"; chart_Version := "1.0.0";
     chart_Values :=
       Some {[ "Values" := VTable {[ "replicas" := VInt 1;
                                     "existingSecret" := VNil ]} ]};
     chart_Templates :=
       [ {| file_Name := "templates/configmap.yaml";
            file_Data := "{{ toYaml .Values }}" |} ];
     chart_Files := [ {| file_Name := "values.rhoai.yaml"; file_Data := "replicas: 2" |} ] |}.

Definition garbledChart : chart_Chart :=
  {| chart_Name := "garbled"; chart_Version := "1.0.0";
     chart_Values := Some {[ "Values" := VTable {[ "ports" := VString "[unclosed" ]} ]};
     chart_Templates :=
       [ {| file_Name := "templates/deployment.yaml";
            file_Data := "{{ toYaml .Values }}" |};
         {| file_Name := "templates/NOTES.txt"; file_Data := "{{ toYaml .Values }}" |} ];
     chart_Files := [] |}.

Definition brokenTemplateChart : chart_Chart :=
  {| chart_Name := "broken-template"; chart_Version := "1.0.0";
     chart_Values := Some ∅;
     chart_Templates := [ {| file_Name := "templates/deployment.yaml"; file_Data := "{{" |} ];
     chart_Files := [] |}.

Definition badOverridesChart : chart_Chart :=
  {| chart_Name := "bad-overrides"; chart_Version := "1.0.0";
     chart_Values := Some {[ "replicas" := VInt 1 ]};
     chart_Templates :=
       [ {| file_Name := "templates/deployment.yaml";
            file_Data := "{{ toYaml .Values }}" |} ];
     chart_Files := [ {| file_Name := "README.md"; file_Data := "# chart" |};
                      {| file_Name := "values.rhoai.yaml"; file_Data := "replicas: [unclosed" |} ] |}.

(** The component the merge tests build by hand: chart defaults, platform
    overrides, nothing else. *)
Definition testChart (defaults : Values) : chart_Chart :=
  {| chart_Name := "test-chart"; chart_Version := "1.0.0";
     chart_Values := defaults; chart_Templates := []; chart_Files := [] |}.

Definition component `{Env} (defaults overrides : Values) : HelmManagedComponent :=
  {| ChartName := "test-chart"; Chart := Some (testChart defaults);
     ValuesGenerator := None; Watches := [];
     RHOAIValues := overrides; pendingWatches := None |}.

(** The three tiers of the value-precedence tests. *)
Definition testDefaults : Values :=
  Some {[ "replicas" := VInt 1;
          "image" := VTable {[ "tag" := VString "latest";
                               "pullPolicy" := VString "Always" ]} ]}.

Definition testOverrides : Values :=
  Some {[ "replicas" := VInt 2;
          "image" := VTable {[ "pullPolicy" := VString "IfNotPresent" ]} ]}.

Definition testComponentValues : Values :=
  Some {[ "replicas" := VInt 3;
          "image" := VTable {[ "tag" := VString "v1.2.3" ]} ]}.

(** The component and the definition of the watch tests. *)
Definition customResource : GroupVersionKind :=
  {| Group := "custom.io"; Version := "v1alpha1"; Kind := "CustomResource" |}.

Definition watching `{Env} : HelmManagedComponent :=
  {| ChartName := "test-chart"; Chart := None; ValuesGenerator := None;
     Watches := [ {| Group := "apps"; Version := "v1"; Kind := "Deployment" |};
                  {| Group := ""; Version := "v1"; Kind := "Service" |};
                  customResource ];
     RHOAIValues := None; pendingWatches := None |}.

(** The component of the tests of [HasPendingWatchForCRD]: one watch, and
    no call of [AddWatches]. *)
Definition unregistered `{Env} : HelmManagedComponent :=
  {| ChartName := ""; Chart := None; ValuesGenerator := None;
     Watches := [ customResource ];
     RHOAIValues := None; pendingWatches := None |}.

Definition customResourceDefinition : CustomResourceDefinition :=
  {| crd_Group := "custom.io"; crd_Kind := "CustomResource";
     crd_Versions := [ {| ver_Name := "v1alpha1"; ver_Served := true |} ] |}.

(** Three packaged charts and one unpacked chart directory. *)
Definition load (path : string) : result chart_Chart :=
  if bool_decide (path = "charts/langfuse.tgz") then Ok langfuseChart
  else if bool_decide (path = "charts/garbled.tgz") then Ok garbledChart
  else if bool_decide (path = "charts/broken-template.tgz") then Ok brokenTemplateChart
  else if bool_decide (path = "charts/bad-overrides") then Ok badOverridesChart
  else Err (fmt_Errorf ("open " ++ path ++ ": no such file or directory")).

(** The component specification is reduced to a replica count. *)
#[export] Instance world : Env :=
  {| Spec := Z;
     filepath_Join := λ dir name, dir ++ "/" ++ name;
     loader_Load := load;
     yaml_Unmarshal_Values := unmarshalValues;
     yaml_Unmarshal := unmarshal;
     engine_Render := render |}.

(** A generator as the registry tests write it: no component values. *)
Definition noValues (spec : Z) : result Values := Ok (Some ∅).

Definition replicasFromSpec (spec : Z) : result Values :=
  Ok (Some {[ "replicas" := VInt spec ]}).

Definition config (chartName : string) : ComponentConfig :=
  {| cfg_ChartName := chartName;
     cfg_ValuesGenerator := Some noValues;
     cfg_Watches := [ {| Group := "apps"; Version := "v1"; Kind := "Deployment" |} ] |}.

(** The catalog after the start-up registration of [langfuse]. *)
Definition started : HelmManagedComponentRegistry :=
  reg_registry (Register NewHelmManagedComponentRegistry "langfuse" (config "langfuse")).

(** Configurations that [validateComponentConfig] turns down. *)
Definition noChartName : ComponentConfig :=
  {| cfg_ChartName := ""; cfg_ValuesGenerator := Some noValues; cfg_Watches := [] |}.

Definition noGenerator : ComponentConfig :=
  {| cfg_ChartName := "langfuse"; cfg_ValuesGenerator := None; cfg_Watches := [] |}.

(** The defaults of a chart for the persistence of Langfuse, and a
    specification that sets no feature. *)
Definition langfuseDefaults : Values :=
  Some {[ "langfuse" := VTable
            {[ "persistence" := VTable
                 {[ "size" := VString "10Gi";
                    "storageClass" := VString "standard" ]} ]} ]}.

Definition unsetSpec : v1alpha1.DSCLangfuse :=
  {| v1alpha1.ManagementState := "Managed";
     v1alpha1.dsc_Spec :=
       {| v1alpha1.DevFlags := None;
          v1alpha1.Features :=
            {| v1alpha1.ExperimentalFeaturesEnabled := false;
               v1alpha1.TracingEnabled := false;
               v1alpha1.StorageSize := "" |} |} |}.

(** The condition [Ready] as the reconciler writes it. *)
Definition ready (status reason : string) : common.Condition :=
  {| common.cond_Type := "Ready"; common.cond_Status := status;
     common.cond_Reason := reason; common.cond_Message := "";
     common.cond_LastTransitionTime := 0 |}.

(** A component with the chart [garbled] at hand. *)
Definition garbled `{Env} : HelmManagedComponent :=
  {| ChartName := "garbled"; Chart := Some garbledChart;
     ValuesGenerator := None; Watches := [];
     RHOAIValues := Some ∅; pendingWatches := Some ∅ |}.

(** A definition of the custom resource that serves [v1] before
    [v1alpha1]. *)
Definition twoVersionDefinition : CustomResourceDefinition :=
  {| crd_Group := "custom.io"; crd_Kind := "CustomResource";
     crd_Versions := [ {| ver_Name := "v1"; ver_Served := true |};
                       {| ver_Name := "v1alpha1"; ver_Served := true |} ] |}.

End Demo.

(** * Properties *)

(** ** The fold of [CoalesceTables] *)

Lemma coalesceValue_table (d s : table) :
  coalesceValue (VTable d) (VTable s) = VTable (coalesceTablesFullKey d s).
Proof. reflexivity. Qed.

Lemma coalesceValue_dst_not_table (dv val : value) :
  istable dv = false → coalesceValue dv val = dv.
Proof. destruct val, dv; simpl; intros; congruence. Qed.

Lemma coalesceValue_src_not_table (dv val : value) :
  istable val = false → coalesceValue dv val = dv.
Proof. destruct val; simpl; intros; congruence. Qed.

Lemma coalesceKey_lookup_eq (key : string) (val : value) (dst : table) :
  coalesceKey coalesceValue key val dst !! key = coalesceAt (dst !! key) (Some val).
Proof.
  unfold coalesceKey, coalesceAt.
  destruct (dst !! key) as [dv|] eqn:Hd.
  - destruct dv, val; simpl;
      rewrite ?Hd, ?lookup_delete_eq, ?lookup_insert_eq; done.
  - by rewrite lookup_insert_eq.
Qed.

Lemma coalesceKey_lookup_ne (key k : string) (val : value) (dst : table) :
  key ≠ k → coalesceKey coalesceValue key val dst !! k = dst !! k.
Proof.
  intros Hne. unfold coalesceKey.
  destruct (dst !! key) as [dv|]; [|by rewrite lookup_insert_ne].
  destruct dv; simpl; try (by destruct (istable val)).
  - by rewrite lookup_delete_ne.
  - destruct (istable val); [by rewrite lookup_insert_ne | done].
Qed.

(** Every key is handled on its own, so the order in which the loop visits the
    source does not matter. *)
Lemma coalesceTablesFullKey_lookup (dst src : table) (k : string) :
  coalesceTablesFullKey dst src !! k = coalesceAt (dst !! k) (src !! k).
Proof.
  unfold coalesceTablesFullKey.
  apply (map_fold_weak_ind
    (λ (r : table) (m : table), r !! k = coalesceAt (dst !! k) (m !! k))).
  - by rewrite lookup_empty.
  - intros key val m r Hfresh IH.
    destruct (decide (key = k)) as [->|Hne].
    + rewrite coalesceKey_lookup_eq, lookup_insert_eq, IH, Hfresh. done.
    + by rewrite coalesceKey_lookup_ne, lookup_insert_ne.
Qed.

(** ** Errors *)

Lemma errors_Is_refl (e : error) : errors_Is e e = true.
Proof. destruct e; simpl; by rewrite bool_decide_eq_true_2. Qed.

Lemma errors_Is_wrap_v (sentinel err : error) :
  errors_Is (wrap_v sentinel err) sentinel = true.
Proof.
  unfold wrap_v. simpl. rewrite errors_Is_refl. apply orb_true_r.
Qed.

Lemma errors_Is_Errorf_w_sentinel (text s1 s2 : string) :
  errors_Is (fmt_Errorf_w text (errors_New s1)) (errors_New s2) = bool_decide (s1 = s2).
Proof.
  destruct (decide (s1 = s2)) as [->|Hne].
  - rewrite bool_decide_eq_true_2 by done. simpl.
    by rewrite (bool_decide_eq_true_2 (errors_New s2 = errors_New s2)).
  - rewrite bool_decide_eq_false_2 by done. simpl.
    rewrite (bool_decide_eq_false_2 (errors_New s1 = errors_New s2)); [done | congruence].
Qed.

(** A [%w: %v] error answers [errors.Is] for its own sentinel only. *)
Lemma errors_Is_wrap_v_other (s1 s2 : string) (err : error) :
  s1 ≠ s2 → errors_Is (wrap_v (errors_New s1) err) (errors_New s2) = false.
Proof.
  intros Hne. unfold wrap_v.
  rewrite errors_Is_Errorf_w_sentinel. by apply bool_decide_eq_false_2.
Qed.

(** ** The merge, key by key *)

Lemma coalesceAt_None_l (val : option value) : coalesceAt None val = val.
Proof. by destruct val. Qed.

Lemma coalesceAt_None_r (dv : option value) : coalesceAt dv None = dv.
Proof. done. Qed.

Lemma coalesceAt_scalar (v : value) (val : option value) :
  istable v = false → v ≠ VNil → coalesceAt (Some v) val = Some v.
Proof.
  intros Ht Hn. destruct val as [x|]; [|done]. simpl.
  destruct v; try done; by rewrite coalesceValue_dst_not_table.
Qed.

Section merge.
Context `{Env}.

Lemma CoalesceTables_valueAt (dst src : Values) (key : string) :
  valueAt (CoalesceTables dst src) key
  = coalesceAt (valueAt dst key) (valueAt src key).
Proof.
  destruct src as [s|], dst as [d|]; simpl; try done.
  - apply coalesceTablesFullKey_lookup.
  - by rewrite coalesceAt_None_l.
Qed.

Lemma nonEmpty_false_valueAt (v : Values) (key : string) :
  nonEmpty v = false → valueAt v key = None.
Proof.
  destruct v as [m|]; [|done]. simpl. intros Hsz.
  apply bool_decide_eq_false in Hsz.
  assert (m = ∅) as -> by (apply map_size_empty_iff; lia).
  apply lookup_empty.
Qed.

Lemma valueAt_nonEmpty (v : Values) (key : string) (x : value) :
  valueAt v key = Some x → nonEmpty v = true.
Proof.
  intros Hx. destruct (nonEmpty v) eqn:Hne; [done|].
  by rewrite (nonEmpty_false_valueAt _ key Hne) in Hx.
Qed.

(** The guards [v != nil && len(v) > 0] of [MergeValues] only skip folds
    that would change nothing at any key. *)
Lemma guarded_valueAt (dst src : Values) (key : string) :
  valueAt (if nonEmpty dst then CoalesceTables dst src else src) key
  = coalesceAt (valueAt dst key) (valueAt src key).
Proof.
  destruct (nonEmpty dst) eqn:Hne.
  - apply CoalesceTables_valueAt.
  - by rewrite (nonEmpty_false_valueAt _ key Hne), coalesceAt_None_l.
Qed.

(** The lower tiers: what [MergeValues] yields without component values. *)
Lemma MergeValues_nil_valueAt (c : HelmManagedComponent) (chart : chart_Chart)
    (key : string) :
  Chart c = Some chart →
  valueAt (MergeValues c None).1 key
  = coalesceAt (valueAt (RHOAIValues c) key) (valueAt (chart_Values chart) key).
Proof.
  intros Hc. unfold MergeValues. rewrite Hc.
  rewrite <- guarded_valueAt.
  by destruct (nonEmpty (RHOAIValues c)).
Qed.

(** Component values are folded onto the lower tiers. *)
Lemma MergeValues_valueAt_lower (c : HelmManagedComponent) (chart : chart_Chart)
    (componentValues : Values) (key : string) :
  Chart c = Some chart →
  valueAt (MergeValues c componentValues).1 key
  = coalesceAt (valueAt componentValues key) (valueAt (MergeValues c None).1 key).
Proof.
  intros Hc. unfold MergeValues. rewrite Hc.
  destruct (nonEmpty (RHOAIValues c)); simpl; apply guarded_valueAt.
Qed.

(** The three tiers at one key. *)
Lemma MergeValues_valueAt (c : HelmManagedComponent) (chart : chart_Chart)
    (componentValues : Values) (key : string) :
  Chart c = Some chart →
  valueAt (MergeValues c componentValues).1 key
  = coalesceAt (valueAt componentValues key)
      (coalesceAt (valueAt (RHOAIValues c) key) (valueAt (chart_Values chart) key)).
Proof.
  intros Hc.
  by rewrite (MergeValues_valueAt_lower _ chart), (MergeValues_nil_valueAt _ chart).
Qed.

Lemma isScalar_not_table (v : value) : isScalar v = true → istable v = false.
Proof. by destruct v. Qed.

Lemma isScalar_not_nil (v : value) : isScalar v = true → v ≠ VNil.
Proof. by destruct v. Qed.

End merge.

(** ** Precedence, deletion and deep merge *)

Section merge_claims.
Context `{Env}.

(** C3.  Merge precedence.  For chart defaults D, platform overrides O and
    component values C: when all three bind the key to a scalar, the merged
    tree binds it to C's value; when D and O bind it to scalars and C omits
    it, to O's value; when D binds it to a scalar and both O and C omit it,
    to D's value. *)
Theorem MergeValues_precedence (c : HelmManagedComponent) (chart : chart_Chart)
    (componentValues : Values) (key : string) :
  Chart c = Some chart →
  (∀ d o v,
     valueAt (chart_Values chart) key = Some d → isScalar d = true →
     valueAt (RHOAIValues c) key = Some o → isScalar o = true →
     valueAt componentValues key = Some v → isScalar v = true →
     valueAt (MergeValues c componentValues).1 key = Some v)
  ∧ (∀ d o,
     valueAt (chart_Values chart) key = Some d → isScalar d = true →
     valueAt (RHOAIValues c) key = Some o → isScalar o = true →
     valueAt componentValues key = None →
     valueAt (MergeValues c componentValues).1 key = Some o)
  ∧ (∀ d,
     valueAt (chart_Values chart) key = Some d → isScalar d = true →
     valueAt (RHOAIValues c) key = None →
     valueAt componentValues key = None →
     valueAt (MergeValues c componentValues).1 key = Some d).
Proof.
  intros Hc. rewrite (MergeValues_valueAt c chart) by done.
  split; [|split].
  - intros d o v _ _ _ _ -> Hv.
    apply coalesceAt_scalar; auto using isScalar_not_table, isScalar_not_nil.
  - intros d o -> _ -> Ho ->. rewrite coalesceAt_None_l.
    apply coalesceAt_scalar; auto using isScalar_not_table, isScalar_not_nil.
  - intros d -> _ -> ->. by rewrite !coalesceAt_None_l.
Qed.

(** C4.  Null deletes.  A key that the component values bind to the absent
    marker, and that the lower tiers bind to something, is missing from the
    merged tree; so is a key that the platform overrides bind to the absent
    marker over a chart default, when the component values leave it alone.
    In no case does such a key fall back to a value of a lower tier: it is
    unbound in the merged tree, or still bound to the absent marker.
    Merging [{name: null}] onto the chart defaults [{name: "default"}] yields
    a tree without [name]. *)
Theorem MergeValues_null_deletes (c : HelmManagedComponent) (chart : chart_Chart)
    (componentValues : Values) (key : string) :
  Chart c = Some chart →
  (∀ lower,
     valueAt (MergeValues c None).1 key = Some lower →
     valueAt componentValues key = Some VNil →
     valueAt (MergeValues c componentValues).1 key = None)
  ∧ (∀ d,
     valueAt (chart_Values chart) key = Some d →
     valueAt (RHOAIValues c) key = Some VNil →
     valueAt componentValues key = None →
     valueAt (MergeValues c componentValues).1 key = None)
  ∧ (valueAt componentValues key = Some VNil →
     valueAt (MergeValues c componentValues).1 key = None
     ∨ valueAt (MergeValues c componentValues).1 key = Some VNil)
  ∧ (MergeValues (Demo.component (Some {[ "name" := VString "default" ]}) (Some ∅))
       (Some {[ "name" := VNil ]})).1 = Some ∅.
Proof.
  intros Hc. split; [|split; [|split]].
  - intros lower Hlow Hnil.
    by rewrite (MergeValues_valueAt_lower c chart), Hlow, Hnil.
  - intros d Hd Ho Hv.
    by rewrite (MergeValues_valueAt c chart), Hd, Ho, Hv.
  - intros Hnil. rewrite (MergeValues_valueAt_lower c chart), Hnil by done.
    destruct (valueAt (MergeValues c None).1 key); simpl; auto.
  - reflexivity.
Qed.

(** C5.  Deep merge preserves siblings.  Where the component values and the
    lower tiers both bind a key to a table, the merged tree binds it to the
    fold of the one table onto the other, and likewise for the platform
    overrides over the chart defaults; in that fold a key that only the lower
    table binds keeps its value, and a scalar of the higher table wins.  With
    D = [{a: {x: 1, y: 2}}], no overrides and C = [{a: {x: 9}}] the result is
    [{a: {x: 9, y: 2}}]. *)
Theorem MergeValues_deep_merge (c : HelmManagedComponent) (chart : chart_Chart)
    (componentValues : Values) (key : string) (hi lo : gmap string value) :
  Chart c = Some chart →
  (valueAt componentValues key = Some (VTable hi) →
   valueAt (MergeValues c None).1 key = Some (VTable lo) →
   valueAt (MergeValues c componentValues).1 key
   = Some (VTable (coalesceTablesFullKey hi lo)))
  ∧ (valueAt (RHOAIValues c) key = Some (VTable hi) →
     valueAt (chart_Values chart) key = Some (VTable lo) →
     valueAt componentValues key = None →
     valueAt (MergeValues c componentValues).1 key
     = Some (VTable (coalesceTablesFullKey hi lo)))
  ∧ (∀ sibling v,
       hi !! sibling = None → lo !! sibling = Some v →
       coalesceTablesFullKey hi lo !! sibling = Some v)
  ∧ (∀ k v,
       hi !! k = Some v → isScalar v = true →
       coalesceTablesFullKey hi lo !! k = Some v)
  ∧ (MergeValues
       (Demo.component
          (Some {[ "a" := VTable {[ "x" := VInt 1; "y" := VInt 2 ]} ]}) (Some ∅))
       (Some {[ "a" := VTable {[ "x" := VInt 9 ]} ]})).1
    = Some {[ "a" := VTable {[ "x" := VInt 9; "y" := VInt 2 ]} ]}.
Proof.
  intros Hc. split; [|split; [|split; [|split]]].
  - intros Hhi Hlo.
    by rewrite (MergeValues_valueAt_lower c chart), Hhi, Hlo.
  - intros Hhi Hlo Hv.
    by rewrite (MergeValues_valueAt c chart), Hhi, Hlo, Hv.
  - intros sibling v Hhi Hlo.
    by rewrite coalesceTablesFullKey_lookup, Hhi, Hlo.
  - intros k v Hhi Hv. rewrite coalesceTablesFullKey_lookup, Hhi.
    apply coalesceAt_scalar; auto using isScalar_not_table, isScalar_not_nil.
  - reflexivity.
Qed.

End merge_claims.

(** ** The watch lifecycle *)

Section watches.
Context `{Env}.

Lemma matchesCRD_crdGVK (gvk : GroupVersionKind) (crd : CustomResourceDefinition) :
  matchesCRD gvk crd ↔ crdGVK crd = gvk.
Proof.
  unfold matchesCRD, crdGVK. destruct gvk as [g v k]. simpl. split.
  - by intros (-> & -> & ->).
  - intros [= <- <- <-]. done.
Qed.

Lemma HasPendingWatchForCRD_isPending (c : HelmManagedComponent)
    (crd : CustomResourceDefinition) :
  HasPendingWatchForCRD c crd = isPending c (crdGVK crd).
Proof.
  unfold HasPendingWatchForCRD, isPending.
  destruct (pendingWatches c) as [p|]; [|done].
  destruct (p !! crdGVK crd) as [[]|]; by case_bool_decide.
Qed.

Lemma isPending_MarkWatchRegistered (c : HelmManagedComponent)
    (gvk d : GroupVersionKind) :
  isPending (MarkWatchRegistered c gvk) d
  = if decide (gvk = d) then false else isPending c d.
Proof.
  unfold isPending, MarkWatchRegistered. simpl.
  destruct (pendingWatches c) as [p|]; simpl; [|by case_decide].
  case_decide as Heq.
  - subst. rewrite lookup_delete_eq. by apply bool_decide_eq_false_2.
  - by rewrite lookup_delete_ne.
Qed.

Lemma extractRHOAIValuesFrom_pendingWatches (files : list chart_File)
    (c : HelmManagedComponent) :
  pendingWatches (extractRHOAIValuesFrom files c).2 = pendingWatches c.
Proof.
  induction files as [|file rest IH]; simpl; [done|].
  case_bool_decide; [|done].
  by destruct (yaml_Unmarshal_Values (file_Data file)).
Qed.

Lemma LoadChart_pendingWatches (c : HelmManagedComponent) (chartPath : string) :
  pendingWatches (load_component (LoadChart c chartPath)) = pendingWatches c.
Proof.
  assert (∀ chart paths,
    pendingWatches (load_component (storeChart c chart paths)) = pendingWatches c)
    as Hstore.
  { intros chart paths. unfold storeChart, extractRHOAIValues. simpl.
    pose proof (extractRHOAIValuesFrom_pendingWatches (chart_Files chart)
                  (set_Chart c (Some chart))) as Hp.
    destruct (extractRHOAIValuesFrom _ _) as [e c']. simpl in *. by rewrite Hp. }
  unfold LoadChart.
  destruct (loader_Load _) as [chart|e]; [apply Hstore|].
  destruct (loader_Load _) as [chart|e']; [apply Hstore|done].
Qed.

Lemma MergeValues_pendingWatches (c : HelmManagedComponent) (componentValues : Values) :
  pendingWatches (MergeValues c componentValues).2 = pendingWatches c.
Proof.
  unfold MergeValues. destruct (Chart c); [|done].
  by destruct (nonEmpty (RHOAIValues c)).
Qed.

(** The set-up: [AddWatches] makes the watched descriptors of custom types
    pending and leaves the others as they are. *)
Lemma isPending_AddWatches (c : HelmManagedComponent) (gvk : GroupVersionKind) :
  isPending (AddWatches c).2 gvk
  = (bool_decide (gvk ∈ Watches c) && negb (isBuiltInType gvk)) || isPending c gvk.
Proof.
  unfold AddWatches, isPending. simpl.
  assert (∀ (watches : list GroupVersionKind) (p : gmap GroupVersionKind bool),
            bool_decide (foldl (addWatch c) p watches !! gvk = Some true)
            = (bool_decide (gvk ∈ watches) && negb (isBuiltInType gvk))
              || bool_decide (p !! gvk = Some true)) as Hfold.
  { induction watches as [|w watches IH]; intros p; simpl; [done|].
    rewrite IH. unfold addWatch, registerWatch.
    destruct (decide (gvk = w)) as [->|Hne].
    - rewrite (bool_decide_eq_true_2 (w ∈ w :: watches)) by by left.
      destruct (isBuiltInType w); simpl.
      + by rewrite andb_false_r.
      + rewrite lookup_insert_eq.
        rewrite (bool_decide_eq_true_2 (Some true = Some true)) by done.
        by rewrite orb_true_r.
    - assert (bool_decide (gvk ∈ w :: watches) = bool_decide (gvk ∈ watches)) as ->.
      { apply bool_decide_ext. rewrite elem_of_cons.
        split; [by intros [?|?] | by right]. }
      destruct (isBuiltInType w); [done|]. by rewrite lookup_insert_ne. }
  destruct (pendingWatches c) as [p|]; rewrite Hfold; [done|].
  by rewrite lookup_empty, (bool_decide_eq_false_2 (None = Some true)).
Qed.

(** No call makes a descriptor pending. *)
Lemma afterCall_isPending (c : HelmManagedComponent) (call : ComponentCall)
    (gvk : GroupVersionKind) :
  isPending c gvk = false → isPending (afterCall c call) gvk = false.
Proof.
  intros Hc. destruct call; simpl; try done.
  - rewrite isPending_MarkWatchRegistered. by case_decide.
  - unfold RegisterPendingWatch.
    destruct (negb (HasPendingWatchForCRD c crd)); simpl; [done|].
    rewrite isPending_MarkWatchRegistered. by case_decide.
  - unfold isPending in *. by rewrite LoadChart_pendingWatches.
  - unfold isPending in *. by rewrite MergeValues_pendingWatches.
Qed.

Lemma afterCalls_isPending (calls : list ComponentCall) (c : HelmManagedComponent)
    (gvk : GroupVersionKind) :
  isPending c gvk = false → isPending (afterCalls c calls) gvk = false.
Proof.
  revert c. induction calls as [|call calls IH]; intros c Hc; [done|].
  simpl. apply IH. by apply afterCall_isPending.
Qed.

(** The loop of [getServedVersion] returns at the first version that is
    served. *)
Lemma firstServed_app (earlier later : list CustomResourceDefinitionVersion)
    (version : CustomResourceDefinitionVersion) :
  Forall (λ v, ver_Served v = false) earlier →
  ver_Served version = true →
  firstServed (earlier ++ version :: later)%list = Some (ver_Name version).
Proof.
  intros Hearlier Hserved.
  induction Hearlier as [|v rest Hv _ IH]; simpl; [by rewrite Hserved|].
  by rewrite Hv.
Qed.

(** Nothing is pending on a component whose pending-watch map is nil or
    empty. *)
Lemma HasPendingWatches_false_isPending (c : HelmManagedComponent)
    (gvk : GroupVersionKind) :
  HasPendingWatches c = false → isPending c gvk = false.
Proof.
  unfold HasPendingWatches, isPending.
  destruct (pendingWatches c) as [p|]; [|done].
  intros Hsize. apply bool_decide_eq_false in Hsize.
  assert (p = ∅) as -> by (apply map_size_empty_iff; lia).
  by rewrite lookup_empty, bool_decide_eq_false_2.
Qed.

(** C8, what the code does.  The pending descriptors are the keys of the
    map [pendingWatches]; [Register] creates the map empty, a component
    literal leaves it nil, and only [AddWatches] puts descriptors into it.
    Take a component with a nil or empty map, a descriptor among its
    watches (never promoted), and a definition that has the group and the
    kind of the descriptor and whose first served version carries the
    version of the descriptor.  [HasPendingWatchForCRD] returns false and
    [MapCRDToComponent] returns no request.  Once [AddWatches] has run, the
    answer is true when the group of the descriptor is not built in. *)
Theorem HasPendingWatchForCRD_unregistered_watch (c : HelmManagedComponent)
    (crd : CustomResourceDefinition) (gvk : GroupVersionKind)
    (earlier later : list CustomResourceDefinitionVersion)
    (version : CustomResourceDefinitionVersion) :
  gvk ∈ Watches c →
  HasPendingWatches c = false →
  Group gvk = crd_Group crd →
  Kind gvk = crd_Kind crd →
  crd_Versions crd = (earlier ++ version :: later)%list →
  Forall (λ v, ver_Served v = false) earlier →
  ver_Served version = true →
  Version gvk = ver_Name version →
  HasPendingWatchForCRD c crd = false
  ∧ MapCRDToComponent c (CRDObject crd) = []
  ∧ HasPendingWatchForCRD (AddWatches c).2 crd = negb (isBuiltInType gvk).
Proof.
  intros Hin Hnone Hgroup Hkind Hversions Hearlier Hserved Hversion.
  assert (crdGVK crd = gvk) as Hgvk.
  { unfold crdGVK, getServedVersion.
    rewrite Hversions, (firstServed_app earlier later version) by done.
    destruct gvk as [g v k]. simpl in *. by subst. }
  assert (HasPendingWatchForCRD c crd = false) as Hhas.
  { rewrite HasPendingWatchForCRD_isPending.
    by apply HasPendingWatches_false_isPending. }
  split; [done|]. split.
  - simpl. by rewrite Hhas.
  - rewrite HasPendingWatchForCRD_isPending, Hgvk, isPending_AddWatches.
    rewrite (HasPendingWatches_false_isPending c gvk Hnone).
    rewrite (bool_decide_eq_true_2 _ Hin). by rewrite orb_false_r.
Qed.

(** C9, amended.  Promotion is idempotent: for a descriptor and a
    definition that matches it, [RegisterPendingWatch] called twice returns
    no error either time, leaves the descriptor active after the first and
    after the second call, and the second call changes nothing.  It is
    one-directional but for the set-up: no sequence of calls other than
    [AddWatches] makes a descriptor that is active pending again, and
    [AddWatches] makes an active descriptor pending exactly when it is among
    the watches of the component and its group is not built in, promoted
    before or not. *)
Theorem RegisterPendingWatch_idempotent (c : HelmManagedComponent)
    (crd : CustomResourceDefinition) (gvk : GroupVersionKind) :
  matchesCRD gvk crd →
  let first := RegisterPendingWatch c crd in
  let second := RegisterPendingWatch first.2 crd in
  first.1 = None ∧ isPending first.2 gvk = false
  ∧ second.1 = None ∧ isPending second.2 gvk = false
  ∧ second.2 = first.2
  ∧ (∀ (calls : list ComponentCall) (c' : HelmManagedComponent)
       (d : GroupVersionKind),
       isPending c' d = false → isPending (afterCalls c' calls) d = false)
  ∧ (∀ (c' : HelmManagedComponent) (d : GroupVersionKind),
       isPending c' d = false →
       isPending (AddWatches c').2 d
       = bool_decide (d ∈ Watches c') && negb (isBuiltInType d)).
Proof.
  intros Hm. apply matchesCRD_crdGVK in Hm. subst gvk. simpl.
  assert (isPending (RegisterPendingWatch c crd).2 (crdGVK crd) = false) as Hfirst.
  { unfold RegisterPendingWatch. rewrite HasPendingWatchForCRD_isPending.
    destruct (isPending c (crdGVK crd)) eqn:Hp; simpl; [|done].
    rewrite isPending_MarkWatchRegistered. by case_decide. }
  assert (RegisterPendingWatch (RegisterPendingWatch c crd).2 crd
          = (None, (RegisterPendingWatch c crd).2)) as Hsecond.
  { unfold RegisterPendingWatch at 1.
    by rewrite HasPendingWatchForCRD_isPending, Hfirst. }
  rewrite Hsecond. simpl.
  repeat split; try done.
  - unfold RegisterPendingWatch. by destruct (negb _).
  - intros calls c' d. apply afterCalls_isPending.
  - intros c' d Hactive. pose proof (isPending_AddWatches c' d) as Hadd.
    rewrite Hactive, orb_false_r in Hadd. exact Hadd.
Qed.

End watches.

(** ** Registration *)

Section registration.
Context `{Env}.

Lemma validateComponentConfig_valid (config : ComponentConfig) :
  cfg_ChartName config ≠ "" → is_Some (cfg_ValuesGenerator config) →
  validateComponentConfig config = None.
Proof.
  intros Hname [generate Hgen]. unfold validateComponentConfig.
  rewrite bool_decide_eq_false_2 by done. by rewrite Hgen.
Qed.

Lemma validateComponentConfig_invalid (config : ComponentConfig) :
  cfg_ChartName config = "" ∨ cfg_ValuesGenerator config = None →
  ∃ err, validateComponentConfig config = Some err.
Proof.
  intros Hbad. unfold validateComponentConfig.
  case_bool_decide as Hname; [eauto|].
  destruct Hbad as [?| ->]; [done | eauto].
Qed.

(** An invalid configuration is turned down before the catalog is looked at. *)
Lemma Register_invalid (r : HelmManagedComponentRegistry) (name : string)
    (config : ComponentConfig) :
  cfg_ChartName config = "" ∨ cfg_ValuesGenerator config = None →
  ∃ err, Register r name config
         = {| reg_err := Some (wrap_v ErrInvalidConfig err);
              reg_registry := r; reg_loads := [] |}.
Proof.
  intros Hbad. destruct (validateComponentConfig_invalid _ Hbad) as [err Herr].
  exists err. unfold Register. by rewrite Herr.
Qed.

Lemma extractRHOAIValuesFrom_unparseable (files : list chart_File)
    (c : HelmManagedComponent) (file : chart_File) (e : error) :
  find (λ f, bool_decide (file_Name f = "values.rhoai.yaml")) files = Some file →
  yaml_Unmarshal_Values (file_Data file) = Err e →
  (extractRHOAIValuesFrom files c).2 = c.
Proof.
  intros Hfind Hparse. induction files as [|f rest IH]; [done|].
  simpl in *. destruct (bool_decide (file_Name f = "values.rhoai.yaml")).
  - injection Hfind as ->. by rewrite Hparse.
  - by apply IH.
Qed.

(** Without a file named [values.rhoai.yaml] the override tree is the empty
    table. *)
Lemma extractRHOAIValuesFrom_absent (files : list chart_File)
    (c : HelmManagedComponent) :
  find (λ f, bool_decide (file_Name f = "values.rhoai.yaml")) files = None →
  extractRHOAIValuesFrom files c = (None, set_RHOAIValues c (Some ∅)).
Proof.
  intros Hfind. induction files as [|f rest IH]; [done|].
  simpl in *. destruct (bool_decide (file_Name f = "values.rhoai.yaml")); [done|].
  by apply IH.
Qed.

(** [LoadChart] fails only when neither the archive nor the directory loads. *)
Lemma LoadChart_err (c : HelmManagedComponent) (chartPath : string) (err : error) :
  load_err (LoadChart c chartPath) = Some err →
  ∃ e1 e2,
    loader_Load (filepath_Join "charts" (chartPath ++ ".tgz")) = Err e1
    ∧ loader_Load (filepath_Join "charts" chartPath) = Err e2.
Proof.
  unfold LoadChart.
  destruct (loader_Load (filepath_Join "charts" (chartPath ++ ".tgz"))) as [chart|e1];
    [by unfold storeChart; destruct (extractRHOAIValues _)|].
  destruct (loader_Load (filepath_Join "charts" chartPath)) as [chart|e2];
    [by unfold storeChart; destruct (extractRHOAIValues _)|].
  eauto.
Qed.

(** C6, as the code has it.  A [Register] call for a name that is already in
    the catalog leaves the catalog as it was (the name still maps to the first
    registration) and hands nothing to the chart loader.  With a valid
    configuration (chart name non-empty, values generator present) the call
    returns the duplicate-name error; with an invalid one it returns the
    invalid-configuration error, because the configuration is validated
    before the catalog is consulted. *)
Theorem Register_duplicate (r : HelmManagedComponentRegistry) (name : string)
    (config : ComponentConfig) (first : HelmManagedComponent) :
  r !! name = Some first →
  reg_registry (Register r name config) = r
  ∧ reg_registry (Register r name config) !! name = Some first
  ∧ reg_loads (Register r name config) = []
  ∧ (cfg_ChartName config ≠ "" → is_Some (cfg_ValuesGenerator config) →
       ∃ e, reg_err (Register r name config) = Some e
            ∧ errors_Is e ErrDuplicateComponent = true)
  ∧ (cfg_ChartName config = "" ∨ cfg_ValuesGenerator config = None →
       ∃ e, reg_err (Register r name config) = Some e
            ∧ errors_Is e ErrInvalidConfig = true
            ∧ errors_Is e ErrDuplicateComponent = false).
Proof.
  intros Hfirst.
  assert (reg_registry (Register r name config) = r
          ∧ reg_loads (Register r name config) = []) as [Hreg Hloads].
  { unfold Register. destruct (validateComponentConfig config); [done|].
    by rewrite Hfirst. }
  rewrite Hreg. split; [done|]. split; [done|]. split; [done|]. split.
  - intros Hname Hgen. unfold Register.
    rewrite validateComponentConfig_valid, Hfirst by done. simpl.
    eexists. split; [done|]. unfold ErrDuplicateComponent.
    rewrite errors_Is_Errorf_w_sentinel. by apply bool_decide_eq_true_2.
  - intros Hbad. destruct (Register_invalid r name config Hbad) as [err ->]. simpl.
    eexists. split; [done|]. split.
    + apply errors_Is_wrap_v.
    + by apply errors_Is_wrap_v_other.
Qed.

(** C7, as the code has it.  [Register] fails with the invalid-configuration
    error whenever the chart name of the configuration is the empty string
    or the values generator is nil; the catalog is then unchanged and nothing
    is handed to the chart loader. *)
Theorem Register_invalid_config (r : HelmManagedComponentRegistry) (name : string)
    (config : ComponentConfig) :
  cfg_ChartName config = "" ∨ cfg_ValuesGenerator config = None →
  (∃ e, reg_err (Register r name config) = Some e
        ∧ errors_Is e ErrInvalidConfig = true)
  ∧ reg_registry (Register r name config) = r
  ∧ reg_loads (Register r name config) = [].
Proof.
  intros Hbad. destruct (Register_invalid r name config Hbad) as [err ->]. simpl.
  split; [|done]. eexists. split; [done|]. apply errors_Is_wrap_v.
Qed.

(** C10.  A chart whose [values.rhoai.yaml] does not parse still registers:
    the error of the extraction step is dropped, the override tree of the
    stored component stays nil, and merging then gives what it gives with the
    empty override tree of a chart without that file, namely the component
    values folded onto the chart defaults.  A chart-load failure is reported
    only when the chart loads neither as an archive nor as a directory. *)
Theorem Register_unparseable_overrides (r : HelmManagedComponentRegistry)
    (name : string) (config : ComponentConfig) (chart : chart_Chart)
    (file : chart_File) (e : error) :
  r !! name = None →
  cfg_ChartName config ≠ "" →
  is_Some (cfg_ValuesGenerator config) →
  (loader_Load (filepath_Join "charts" (cfg_ChartName config ++ ".tgz")) = Ok chart
   ∨ (∃ e1, loader_Load (filepath_Join "charts" (cfg_ChartName config ++ ".tgz")) = Err e1)
     ∧ loader_Load (filepath_Join "charts" (cfg_ChartName config)) = Ok chart) →
  find (λ f, bool_decide (file_Name f = "values.rhoai.yaml")) (chart_Files chart)
    = Some file →
  yaml_Unmarshal_Values (file_Data file) = Err e →
  reg_err (Register r name config) = None
  ∧ (∃ c, reg_registry (Register r name config) !! name = Some c
          ∧ Chart c = Some chart
          ∧ RHOAIValues c = None
          ∧ ∀ componentValues,
              (MergeValues c componentValues).1
              = (if nonEmpty componentValues
                 then CoalesceTables componentValues (chart_Values chart)
                 else chart_Values chart)
              ∧ (MergeValues c componentValues).1
                = (MergeValues (set_RHOAIValues c (Some ∅)) componentValues).1)
  ∧ (∀ r' name' config' e',
       reg_err (Register r' name' config') = Some e' →
       errors_Is e' ErrChartLoadFailed = true →
       ∃ e1 e2,
         loader_Load (filepath_Join "charts" (cfg_ChartName config' ++ ".tgz")) = Err e1
         ∧ loader_Load (filepath_Join "charts" (cfg_ChartName config')) = Err e2).
Proof.
  intros Hfresh Hname Hgen Hload Hfind Hparse.
  set (fresh := {| ChartName := cfg_ChartName config; Chart := None;
                   ValuesGenerator := cfg_ValuesGenerator config;
                   Watches := cfg_Watches config;
                   RHOAIValues := None; pendingWatches := Some ∅ |}).
  assert (∃ paths, LoadChart fresh (cfg_ChartName config)
                   = {| load_err := None;
                        load_component := set_Chart fresh (Some chart);
                        load_paths := paths |}) as [paths Hloaded].
  { assert (∀ paths, storeChart fresh chart paths
                     = {| load_err := None;
                          load_component := set_Chart fresh (Some chart);
                          load_paths := paths |}) as Hstore.
    { intros paths. unfold storeChart, extractRHOAIValues. simpl.
      pose proof (extractRHOAIValuesFrom_unparseable (chart_Files chart)
                    (set_Chart fresh (Some chart)) file e Hfind Hparse) as Hsame.
      destruct (extractRHOAIValuesFrom _ _) as [e' c']. simpl in Hsame. by subst. }
    unfold LoadChart. destruct Hload as [-> | [[e1 ->] ->]]; eauto. }
  split; [|split].
  - unfold Register. rewrite validateComponentConfig_valid, Hfresh by done.
    fold fresh. by rewrite Hloaded.
  - exists (set_Chart fresh (Some chart)). split; [|split; [done|split; [done|]]].
    + unfold Register. rewrite validateComponentConfig_valid, Hfresh by done.
      fold fresh. rewrite Hloaded. simpl.
      unfold HelmManagedComponentRegistry. apply lookup_insert_eq.
    + intros componentValues. split; [|done].
      unfold MergeValues. simpl. done.
  - intros r' name' config' e' Herr His. unfold Register in Herr.
    destruct (validateComponentConfig config') as [bad|] eqn:Hvalid.
    { simpl in Herr. injection Herr as <-.
      unfold ErrInvalidConfig, ErrChartLoadFailed in His.
      by rewrite errors_Is_wrap_v_other in His. }
    destruct (r' !! name') as [dup|].
    { simpl in Herr. injection Herr as <-.
      unfold ErrDuplicateComponent, ErrChartLoadFailed in His.
      rewrite errors_Is_Errorf_w_sentinel in His.
      by apply bool_decide_eq_true in His. }
    destruct (load_err (LoadChart _ _)) as [lerr|] eqn:Hlerr; [|done].
    by apply LoadChart_err in Hlerr.
Qed.

End registration.

(** ** Rendering *)

Section rendering.
Context `{Env}.

Lemma MergeValues_Chart (c : HelmManagedComponent) (componentValues : Values) :
  Chart (MergeValues c componentValues).2 = Chart c.
Proof.
  unfold MergeValues. destruct (Chart c) eqn:Hc; [|done].
  by destruct (nonEmpty (RHOAIValues c)).
Qed.

(** After a call with non-empty platform overrides, the component holds the
    overrides merged with the chart defaults in their place. *)
Lemma MergeValues_RHOAIValues (c : HelmManagedComponent) (chart : chart_Chart)
    (componentValues : Values) :
  Chart c = Some chart → nonEmpty (RHOAIValues c) = true →
  RHOAIValues (MergeValues c componentValues).2
  = CoalesceTables (RHOAIValues c) (chart_Values chart).
Proof.
  intros Hc Hne. unfold MergeValues. by rewrite Hc, Hne.
Qed.

(** A chart default that is the absent marker, under non-empty platform
    overrides that do not mention its key: the first call copies the entry
    into the override tree that the component keeps, where the second call
    finds it as a destination entry and deletes it.  The merged values bind
    the key on the first call and not on the second. *)
Lemma MergeValues_second_call (c : HelmManagedComponent) (chart : chart_Chart)
    (componentValues : Values) (key : string) :
  Chart c = Some chart →
  valueAt (chart_Values chart) key = Some VNil →
  nonEmpty (RHOAIValues c) = true →
  valueAt (RHOAIValues c) key = None →
  valueAt componentValues key = None →
  valueAt (MergeValues c componentValues).1 key = Some VNil
  ∧ valueAt (MergeValues (MergeValues c componentValues).2 componentValues).1 key
    = None.
Proof.
  intros Hc Hd Hne Ho Hv. split.
  - by rewrite (MergeValues_valueAt c chart), Hd, Ho, Hv.
  - rewrite (MergeValues_valueAt _ chart) by by rewrite MergeValues_Chart.
    rewrite (MergeValues_RHOAIValues c chart) by done.
    by rewrite CoalesceTables_valueAt, Hd, Ho, Hv.
Qed.

(** A successful values generation leads [Render] to the template engine
    with the merged values, and leaves the merged component in the
    registry. *)
Lemma Render_step (r : HelmManagedComponentRegistry) (name : string) (spec : Spec)
    (c : HelmManagedComponent) (generate : Spec → result Values)
    (componentValues : Values) :
  GetComponent r name = Some c →
  ValuesGenerator c = Some generate →
  generate spec = Ok componentValues →
  Render r name spec
  = (Returns
       match RenderTemplates c (MergeValues c componentValues).1 with
       | Ok manifests => Ok manifests
       | Err err => Err (wrap_v ErrTemplateRendering err)
       end,
     <[name := (MergeValues c componentValues).2]> r).
Proof.
  intros Hget Hgen Hvalues. unfold Render. rewrite Hget, Hgen, Hvalues.
  pose proof (MergeValues_Chart c componentValues) as Hchart.
  destruct (MergeValues c componentValues) as [finalValues c']. simpl in *.
  unfold RenderTemplates. rewrite Hchart.
  by destruct (Chart c) as [chart|];
    [destruct (engine_Render chart finalValues) as [manifests|err];
       [destruct (map_fold filterManifest (Ok ∅) manifests)|]|].
Qed.

(** Two [Render] calls in a row, same name and specification: the engine is
    run on the same chart, the first time with values that bind the key (to
    the absent marker), the second time with values that do not. *)
Lemma Render_second_call (r : HelmManagedComponentRegistry) (name : string)
    (spec : Spec) (c : HelmManagedComponent) (generate : Spec → result Values)
    (componentValues : Values) (chart : chart_Chart) (key : string) :
  GetComponent r name = Some c →
  ValuesGenerator c = Some generate →
  generate spec = Ok componentValues →
  Chart c = Some chart →
  valueAt (chart_Values chart) key = Some VNil →
  nonEmpty (RHOAIValues c) = true →
  valueAt (RHOAIValues c) key = None →
  valueAt componentValues key = None →
  ∃ first second : Values,
    valueAt first key = Some VNil
    ∧ valueAt second key = None
    ∧ (Render r name spec).1
      = Returns match RenderTemplates c first with
                | Ok manifests => Ok manifests
                | Err err => Err (wrap_v ErrTemplateRendering err)
                end
    ∧ (Render (Render r name spec).2 name spec).1
      = Returns match RenderTemplates c second with
                | Ok manifests => Ok manifests
                | Err err => Err (wrap_v ErrTemplateRendering err)
                end.
Proof.
  intros Hget Hgen Hvalues Hc Hd Hne Ho Hv.
  destruct (MergeValues_second_call c chart componentValues key Hc Hd Hne Ho Hv)
    as [Hfirst Hsecond].
  exists (MergeValues c componentValues).1,
         (MergeValues (MergeValues c componentValues).2 componentValues).1.
  split; [done|]. split; [done|].
  rewrite (Render_step r name spec c generate componentValues) by done.
  split; [done|]. simpl.
  assert (ValuesGenerator (MergeValues c componentValues).2 = Some generate) as Hgen'.
  { unfold MergeValues. rewrite Hc. by destruct (nonEmpty (RHOAIValues c)). }
  rewrite (Render_step _ name spec (MergeValues c componentValues).2 generate
             componentValues);
    [|unfold GetComponent, HelmManagedComponentRegistry; apply lookup_insert_eq
     |done|done].
  simpl. unfold RenderTemplates. by rewrite !MergeValues_Chart.
Qed.

(** The same one level down, in the table that the templates of the chart
    reach as [.Values]: a default under [Values] that is the absent marker,
    under non-empty platform overrides that have no entry [Values].  The
    first call copies the table of the chart into the override tree that the
    component keeps; the second call merges the chart defaults into that
    table and deletes the key from it. *)
Lemma MergeValues_second_call_Values (c : HelmManagedComponent)
    (chart : chart_Chart) (componentValues : Values) (defaults : table)
    (key : string) :
  Chart c = Some chart →
  valueAt (chart_Values chart) "Values" = Some (VTable defaults) →
  defaults !! key = Some VNil →
  nonEmpty (RHOAIValues c) = true →
  valueAt (RHOAIValues c) "Values" = None →
  valueAt componentValues "Values" = None →
  valueAt (MergeValues c componentValues).1 "Values" = Some (VTable defaults)
  ∧ ∃ values : table,
      valueAt (MergeValues (MergeValues c componentValues).2 componentValues).1
        "Values" = Some (VTable values)
      ∧ values !! key = None.
Proof.
  intros Hc Hd Hkey Hne Ho Hv. split.
  - by rewrite (MergeValues_valueAt c chart), Hd, Ho, Hv.
  - exists (coalesceTablesFullKey defaults defaults). split.
    + rewrite (MergeValues_valueAt _ chart) by by rewrite MergeValues_Chart.
      rewrite (MergeValues_RHOAIValues c chart) by done.
      by rewrite CoalesceTables_valueAt, Hd, Ho, Hv.
    + by rewrite coalesceTablesFullKey_lookup, Hkey.
Qed.

(** Two [Render] calls in a row, same name and specification, on such a
    component: the engine is run on the same chart, the first time with the
    key bound in [Values], the second time without it. *)
Lemma Render_second_call_Values (r : HelmManagedComponentRegistry)
    (name : string) (spec : Spec) (c : HelmManagedComponent)
    (generate : Spec → result Values) (componentValues : Values)
    (chart : chart_Chart) (defaults : table) (key : string) :
  GetComponent r name = Some c →
  ValuesGenerator c = Some generate →
  generate spec = Ok componentValues →
  Chart c = Some chart →
  valueAt (chart_Values chart) "Values" = Some (VTable defaults) →
  defaults !! key = Some VNil →
  nonEmpty (RHOAIValues c) = true →
  valueAt (RHOAIValues c) "Values" = None →
  valueAt componentValues "Values" = None →
  ∃ (first second : Values) (values : table),
    valueAt first "Values" = Some (VTable defaults)
    ∧ valueAt second "Values" = Some (VTable values)
    ∧ values !! key = None
    ∧ (Render r name spec).1
      = Returns match RenderTemplates c first with
                | Ok manifests => Ok manifests
                | Err err => Err (wrap_v ErrTemplateRendering err)
                end
    ∧ (Render (Render r name spec).2 name spec).1
      = Returns match RenderTemplates c second with
                | Ok manifests => Ok manifests
                | Err err => Err (wrap_v ErrTemplateRendering err)
                end.
Proof.
  intros Hget Hgen Hvalues Hc Hd Hkey Hne Ho Hv.
  destruct (MergeValues_second_call_Values c chart componentValues defaults key
              Hc Hd Hkey Hne Ho Hv) as [Hfirst (values & Hsecond & Hgone)].
  exists (MergeValues c componentValues).1,
         (MergeValues (MergeValues c componentValues).2 componentValues).1,
         values.
  split; [done|]. split; [done|]. split; [done|].
  rewrite (Render_step r name spec c generate componentValues) by done.
  split; [done|]. simpl.
  assert (ValuesGenerator (MergeValues c componentValues).2 = Some generate) as Hgen'.
  { unfold MergeValues. rewrite Hc. by destruct (nonEmpty (RHOAIValues c)). }
  rewrite (Render_step _ name spec (MergeValues c componentValues).2 generate
             componentValues);
    [|unfold GetComponent, HelmManagedComponentRegistry; apply lookup_insert_eq
     |done|done].
  simpl. unfold RenderTemplates. by rewrite !MergeValues_Chart.
Qed.

(** The loop of [RenderTemplates] stops with an error as soon as the
    manifests hold an entry that is kept and does not parse. *)
Lemma filterManifest_invalid (manifests : gmap string string)
    (filename content : string) (yerr : error) :
  manifests !! filename = Some content →
  shouldExcludeFile filename = false →
  validateYAML content = Some yerr →
  ∃ e, map_fold filterManifest (Ok ∅) manifests = Err e.
Proof.
  intros Hin Hkept Hbad.
  assert (∀ fn ct, manifests !! fn = Some ct → shouldExcludeFile fn = false →
                   validateYAML ct = Some yerr →
                   ∃ e, map_fold filterManifest (Ok ∅) manifests = Err e) as Hgen;
    [|by eapply Hgen].
  clear. apply (map_fold_weak_ind
    (λ (acc : result (gmap string string)) (m : gmap string string),
       ∀ fn ct, m !! fn = Some ct → shouldExcludeFile fn = false →
                validateYAML ct = Some yerr → ∃ e, acc = Err e)).
  - intros fn ct Hfn. by rewrite lookup_empty in Hfn.
  - intros i x m acc Hfresh IH fn ct Hfn Hkept Hbad.
    destruct (decide (i = fn)) as [->|Hne].
    + rewrite lookup_insert_eq in Hfn. injection Hfn as ->.
      destruct acc as [filtered|e]; simpl; [|eauto].
      rewrite Hkept, Hbad. eauto.
    + rewrite lookup_insert_ne in Hfn by done.
      destruct (IH fn ct Hfn Hkept Hbad) as [e ->]. simpl. eauto.
Qed.

(** A failure of the template engine is a template-rendering failure. *)
Lemma Render_engine_failure (r : HelmManagedComponentRegistry) (name : string)
    (spec : Spec) (c : HelmManagedComponent) (generate : Spec → result Values)
    (componentValues : Values) (chart : chart_Chart) (err : error) :
  GetComponent r name = Some c →
  ValuesGenerator c = Some generate →
  generate spec = Ok componentValues →
  Chart c = Some chart →
  engine_Render chart (MergeValues c componentValues).1 = Err err →
  ∃ e, (Render r name spec).1 = Returns (Err e)
       ∧ errors_Is e ErrTemplateRendering = true.
Proof.
  intros Hget Hgen Hvalues Hchart Hengine.
  rewrite (Render_step r name spec c generate componentValues) by done. simpl.
  unfold RenderTemplates. rewrite Hchart, Hengine.
  eexists. split; [done|]. apply errors_Is_wrap_v.
Qed.

(** No exit of [Render] answers [errors.Is] for [ErrInvalidManifest]. *)
Lemma Render_never_ErrInvalidManifest (r : HelmManagedComponentRegistry)
    (name : string) (spec : Spec) (e : error) :
  (Render r name spec).1 = Returns (Err e) →
  errors_Is e ErrInvalidManifest = false.
Proof.
  unfold Render. destruct (GetComponent r name) as [c|].
  - destruct (ValuesGenerator c) as [generate|]; [|done].
    destruct (generate spec) as [componentValues|gerr].
    + destruct (MergeValues c componentValues) as [finalValues c'].
      destruct (RenderTemplates c' finalValues) as [manifests|rerr]; [done|].
      simpl. intros [= <-]. by apply errors_Is_wrap_v_other.
    + simpl. intros [= <-]. by apply errors_Is_wrap_v_other.
  - simpl. intros [= <-]. unfold ErrComponentNotFound, ErrInvalidManifest.
    rewrite errors_Is_Errorf_w_sentinel. by apply bool_decide_eq_false_2.
Qed.

(** C2, what the code does.  When the template engine succeeds and an entry
    that survives the filter fails YAML validation, [Render] returns an
    error that is [ErrTemplateRendering] and is not [ErrInvalidManifest]
    (the sentinel the claim and contracts/registry-api.md name for this
    case). *)
Theorem Render_invalid_YAML (r : HelmManagedComponentRegistry) (name : string)
    (spec : Spec) (c : HelmManagedComponent) (generate : Spec → result Values)
    (componentValues : Values) (chart : chart_Chart)
    (manifests : gmap string string) (filename content : string) (yerr : error) :
  GetComponent r name = Some c →
  ValuesGenerator c = Some generate →
  generate spec = Ok componentValues →
  Chart c = Some chart →
  engine_Render chart (MergeValues c componentValues).1 = Ok manifests →
  manifests !! filename = Some content →
  shouldExcludeFile filename = false →
  validateYAML content = Some yerr →
  ∃ e, (Render r name spec).1 = Returns (Err e)
       ∧ errors_Is e ErrTemplateRendering = true
       ∧ errors_Is e ErrInvalidManifest = false.
Proof.
  intros Hget Hgen Hvalues Hchart Hengine Hin Hkept Hbad.
  destruct (filterManifest_invalid manifests filename content yerr Hin Hkept Hbad)
    as [ferr Hferr].
  unfold Render. rewrite Hget, Hgen, Hvalues.
  pose proof (MergeValues_Chart c componentValues) as Hchart'.
  destruct (MergeValues c componentValues) as [finalValues c']. simpl in *.
  unfold RenderTemplates. rewrite Hchart', Hchart, Hengine, Hferr. simpl.
  eexists. split; [done|]. split.
  - apply errors_Is_wrap_v.
  - by apply errors_Is_wrap_v_other.
Qed.

End rendering.

(** C1, what the code does.  In the demo world the chart [langfuse] has in
    [values.yaml] the mapping [Values] with [replicas: 1] and
    [existingSecret:] (null), the platform override [replicas: 2], and one
    template that prints [.Values].  After registration, two [Render] calls
    with the same name and the same specification, with nothing but the
    first call between them, return different manifest sets: the first call
    puts the mapping [Values] of the chart, null entry included, into the
    override tree of the component, where the second call deletes the null
    entry.  The template prints the entry the first time and not the
    second. *)
Theorem Render_twice_differs :
  let registered :=
    Register (H := Demo.world) NewHelmManagedComponentRegistry "langfuse"
      (Demo.config "langfuse") in
  let first := Render (reg_registry registered) "langfuse" 1%Z in
  let second := Render first.2 "langfuse" 1%Z in
  reg_err registered = None
  ∧ first.1 = Returns (Ok {[ "langfuse/templates/configmap.yaml"
                              := "{existingSecret: null, replicas: 1}" ]})
  ∧ second.1 = Returns (Ok {[ "langfuse/templates/configmap.yaml"
                               := "{replicas: 1}" ]})
  ∧ first.1 ≠ second.1.
Proof.
  assert (∀ a b : outcome (result (gmap string string)),
            a = Returns (Ok {[ "langfuse/templates/configmap.yaml"
                                := "{existingSecret: null, replicas: 1}" ]}) →
            b = Returns (Ok {[ "langfuse/templates/configmap.yaml"
                                := "{replicas: 1}" ]}) →
            a ≠ b) as Hdiff.
  { intros a b -> -> Heq.
    pose proof (f_equal (λ o : outcome (result (gmap string string)),
      match o with
      | Returns (Ok m) => m !! "langfuse/templates/configmap.yaml"
      | _ => None
      end) Heq) as Hat.
    simpl in Hat. by rewrite !lookup_singleton_eq in Hat. }
  assert (reg_err (Register (H := Demo.world) NewHelmManagedComponentRegistry
                     "langfuse" (Demo.config "langfuse")) = None) as Hreg
    by reflexivity.
  assert ((Render (reg_registry (Register (H := Demo.world)
             NewHelmManagedComponentRegistry "langfuse" (Demo.config "langfuse")))
             "langfuse" 1%Z).1
          = Returns (Ok {[ "langfuse/templates/configmap.yaml"
                              := "{existingSecret: null, replicas: 1}" ]}))
    as Hfirst by reflexivity.
  assert ((Render (Render (reg_registry (Register (H := Demo.world)
             NewHelmManagedComponentRegistry "langfuse" (Demo.config "langfuse")))
             "langfuse" 1%Z).2 "langfuse" 1%Z).1
          = Returns (Ok {[ "langfuse/templates/configmap.yaml"
                              := "{replicas: 1}" ]}))
    as Hsecond by reflexivity.
  cbv zeta. split; [done|]. split; [done|]. split; [done|]. by apply Hdiff.
Qed.

(** ** The properties at work in the demo world *)

(** The three tiers of the value-precedence tests: [replicas] is 3 from the
    component values, 2 from the overrides when the component is silent, 1
    from the chart when the overrides are silent too. *)
Lemma MergeValues_precedence_witness :
  valueAt (MergeValues (H := Demo.world)
             (Demo.component Demo.testDefaults Demo.testOverrides)
             Demo.testComponentValues).1 "replicas" = Some (VInt 3)
  ∧ valueAt (MergeValues (H := Demo.world)
               (Demo.component Demo.testDefaults Demo.testOverrides)
               (Some ∅)).1 "replicas" = Some (VInt 2)
  ∧ valueAt (MergeValues (H := Demo.world)
               (Demo.component Demo.testDefaults (Some ∅)) None).1 "replicas"
    = Some (VInt 1).
Proof.
  split; [|split].
  - apply (MergeValues_precedence (H := Demo.world)
             (Demo.component Demo.testDefaults Demo.testOverrides)
             (Demo.testChart Demo.testDefaults) Demo.testComponentValues
             "replicas" eq_refl)
      with (d := VInt 1) (o := VInt 2); reflexivity.
  - apply (MergeValues_precedence (H := Demo.world)
             (Demo.component Demo.testDefaults Demo.testOverrides)
             (Demo.testChart Demo.testDefaults) (Some ∅)
             "replicas" eq_refl)
      with (d := VInt 1); reflexivity.
  - apply (MergeValues_precedence (H := Demo.world)
             (Demo.component Demo.testDefaults (Some ∅))
             (Demo.testChart Demo.testDefaults) None
             "replicas" eq_refl); reflexivity.
Defined.

(** [name: null] in the component values removes the chart default
    [name: default]; [name: null] in the platform overrides does the same. *)
Lemma MergeValues_null_deletes_witness :
  valueAt (MergeValues (H := Demo.world)
             (Demo.component (Some {[ "name" := VString "default" ]}) (Some ∅))
             (Some {[ "name" := VNil ]})).1 "name" = None
  ∧ valueAt (MergeValues (H := Demo.world)
               (Demo.component (Some {[ "name" := VString "default" ]})
                  (Some {[ "name" := VNil ]}))
               (Some ∅)).1 "name" = None.
Proof.
  split.
  - apply (MergeValues_null_deletes (H := Demo.world)
             (Demo.component (Some {[ "name" := VString "default" ]}) (Some ∅))
             (Demo.testChart (Some {[ "name" := VString "default" ]}))
             (Some {[ "name" := VNil ]}) "name" eq_refl)
      with (lower := VString "default"); reflexivity.
  - apply (MergeValues_null_deletes (H := Demo.world)
             (Demo.component (Some {[ "name" := VString "default" ]})
                (Some {[ "name" := VNil ]}))
             (Demo.testChart (Some {[ "name" := VString "default" ]}))
             (Some ∅) "name" eq_refl)
      with (d := VString "default"); reflexivity.
Defined.

(** The [image] tables of the value-precedence tests: the component sets
    [tag], the pull policy of the overrides survives next to it. *)
Lemma MergeValues_deep_merge_witness :
  valueAt (MergeValues (H := Demo.world)
             (Demo.component Demo.testDefaults Demo.testOverrides)
             Demo.testComponentValues).1 "image"
  = Some (VTable {[ "tag" := VString "v1.2.3";
                    "pullPolicy" := VString "IfNotPresent" ]}).
Proof.
  rewrite (proj1 (MergeValues_deep_merge (H := Demo.world)
             (Demo.component Demo.testDefaults Demo.testOverrides)
             (Demo.testChart Demo.testDefaults) Demo.testComponentValues "image"
             {[ "tag" := VString "v1.2.3" ]}
             {[ "pullPolicy" := VString "IfNotPresent"; "tag" := VString "latest" ]}
             eq_refl)); reflexivity.
Defined.

(** The chart [garbled] renders, and its deployment does not parse: [Render]
    reports a template-rendering failure. *)
Lemma Render_invalid_YAML_witness :
  ∃ e, (Render (H := Demo.world)
          (reg_registry (Register NewHelmManagedComponentRegistry "garbled"
                           (Demo.config "garbled")))
          "garbled" 1%Z).1 = Returns (Err e)
       ∧ errors_Is e ErrTemplateRendering = true
       ∧ errors_Is e ErrInvalidManifest = false.
Proof.
  eapply (Render_invalid_YAML (H := Demo.world) _ "garbled" 1%Z _ Demo.noValues
            (Some ∅) Demo.garbledChart _ "garbled/templates/deployment.yaml"
            "{ports: [unclosed}");
    reflexivity.
Defined.

(** C6, the claim as stated fails: [langfuse] is registered, and a second
    [Register] call for that name with an empty chart name returns the
    invalid-configuration error, not the duplicate-name error. *)
Lemma Register_duplicate_invalid_config :
  is_Some (Demo.started !! "langfuse")
  ∧ ∃ e, reg_err (Register (H := Demo.world) Demo.started "langfuse" Demo.noChartName)
         = Some e
         ∧ errors_Is e ErrInvalidConfig = true
         ∧ errors_Is e ErrDuplicateComponent = false.
Proof.
  split.
  - by eexists.
  - eexists. split; [reflexivity|]. split; reflexivity.
Qed.

(** Registering [langfuse] a second time with the configuration of the first
    registration: the duplicate-name error, and the catalog as it was. *)
Lemma Register_duplicate_witness :
  reg_registry (Register (H := Demo.world) Demo.started "langfuse"
                  (Demo.config "langfuse")) = Demo.started
  ∧ reg_loads (Register (H := Demo.world) Demo.started "langfuse"
                 (Demo.config "langfuse")) = []
  ∧ ∃ e, reg_err (Register (H := Demo.world) Demo.started "langfuse"
                    (Demo.config "langfuse")) = Some e
         ∧ errors_Is e ErrDuplicateComponent = true.
Proof.
  assert (∃ first, Demo.started !! "langfuse" = Some first) as [first Hfirst]
    by (eexists; reflexivity).
  destruct (Register_duplicate (H := Demo.world) Demo.started "langfuse"
              (Demo.config "langfuse") first Hfirst)
    as (Hreg & _ & Hloads & Hdup & _).
  split; [exact Hreg|]. split; [exact Hloads|].
  apply Hdup; [discriminate | by eexists].
Defined.

(** C7, the claim as stated fails: the empty component name is accepted when
    the configuration is valid, and the catalog gains an entry under it. *)
Lemma Register_empty_name_accepted :
  reg_err (Register (H := Demo.world) NewHelmManagedComponentRegistry ""
             (Demo.config "langfuse")) = None
  ∧ is_Some (reg_registry (Register (H := Demo.world) NewHelmManagedComponentRegistry ""
                             (Demo.config "langfuse")) !! "").
Proof.
  split; [reflexivity | by eexists].
Qed.

(** A configuration without a values generator, and one without a chart name. *)
Lemma Register_invalid_config_witness :
  (∃ e, reg_err (Register (H := Demo.world) NewHelmManagedComponentRegistry "langfuse"
                   Demo.noGenerator) = Some e
        ∧ errors_Is e ErrInvalidConfig = true)
  ∧ reg_registry (Register (H := Demo.world) NewHelmManagedComponentRegistry "langfuse"
                    Demo.noChartName) = NewHelmManagedComponentRegistry.
Proof.
  split.
  - apply (Register_invalid_config (H := Demo.world) NewHelmManagedComponentRegistry
             "langfuse" Demo.noGenerator). right. reflexivity.
  - apply (Register_invalid_config (H := Demo.world) NewHelmManagedComponentRegistry
             "langfuse" Demo.noChartName). left. reflexivity.
Defined.

(** The test [should return true when CRD matches unregistered watch]: the
    component watches the custom resource, [AddWatches] has not run, and
    the definition serves the version of the watch.  The answer is false;
    it is true after [AddWatches]. *)
Lemma HasPendingWatchForCRD_unregistered_watch_witness :
  HasPendingWatchForCRD (H := Demo.world) Demo.unregistered
    Demo.customResourceDefinition = false
  ∧ MapCRDToComponent (H := Demo.world) Demo.unregistered
      (CRDObject Demo.customResourceDefinition) = []
  ∧ HasPendingWatchForCRD (AddWatches (H := Demo.world) Demo.unregistered).2
      Demo.customResourceDefinition = true.
Proof.
  apply (HasPendingWatchForCRD_unregistered_watch (H := Demo.world)
           Demo.unregistered Demo.customResourceDefinition Demo.customResource
           [] [] {| ver_Name := "v1alpha1"; ver_Served := true |}).
  - apply list_elem_of_here.
  - reflexivity.
  - reflexivity.
  - reflexivity.
  - reflexivity.
  - apply Forall_nil_2.
  - reflexivity.
  - reflexivity.
Defined.

(** C9, the claim as stated fails: the custom resource of the watch tests is
    active after its promotion, and [AddWatches] on the promoted component
    makes it pending again. *)
Lemma RegisterPendingWatch_undone_by_AddWatches :
  isPending
    (RegisterPendingWatch (AddWatches (H := Demo.world) Demo.watching).2
       Demo.customResourceDefinition).2 Demo.customResource = false
  ∧ isPending
      (AddWatches (H := Demo.world)
         (RegisterPendingWatch (AddWatches (H := Demo.world) Demo.watching).2
            Demo.customResourceDefinition).2).2 Demo.customResource = true.
Proof. split; reflexivity. Qed.

(** Promoting the custom resource of the watch tests twice. *)
Lemma RegisterPendingWatch_idempotent_witness :
  isPending (AddWatches (H := Demo.world) Demo.watching).2 Demo.customResource = true
  ∧ (RegisterPendingWatch (AddWatches (H := Demo.world) Demo.watching).2
       Demo.customResourceDefinition).1 = None
  ∧ isPending
      (RegisterPendingWatch (AddWatches (H := Demo.world) Demo.watching).2
         Demo.customResourceDefinition).2 Demo.customResource = false
  ∧ RegisterPendingWatch
      (RegisterPendingWatch (AddWatches (H := Demo.world) Demo.watching).2
         Demo.customResourceDefinition).2 Demo.customResourceDefinition
    = (None, (RegisterPendingWatch (AddWatches (H := Demo.world) Demo.watching).2
                Demo.customResourceDefinition).2).
Proof.
  destruct (RegisterPendingWatch_idempotent (H := Demo.world)
              (AddWatches Demo.watching).2 Demo.customResourceDefinition
              Demo.customResource (conj eq_refl (conj eq_refl eq_refl)))
    as (Herr1 & Hactive1 & Herr2 & _ & Hsame & _ & _).
  split; [reflexivity|]. split; [exact Herr1|]. split; [exact Hactive1|].
  rewrite <- Hsame, <- Herr2. by destruct (RegisterPendingWatch _ _).
Defined.

(** The chart directory [bad-overrides] carries a [values.rhoai.yaml] that
    does not parse: registration succeeds and the override tree stays nil. *)
Lemma Register_unparseable_overrides_witness :
  reg_err (Register (H := Demo.world) NewHelmManagedComponentRegistry "bad"
             (Demo.config "bad-overrides")) = None
  ∧ ∃ c, reg_registry (Register (H := Demo.world) NewHelmManagedComponentRegistry "bad"
                         (Demo.config "bad-overrides")) !! "bad" = Some c
         ∧ RHOAIValues c = None.
Proof.
  destruct (Register_unparseable_overrides (H := Demo.world)
              NewHelmManagedComponentRegistry "bad" (Demo.config "bad-overrides")
              Demo.badOverridesChart
              {| file_Name := "values.rhoai.yaml"; file_Data := "replicas: [unclosed" |}
              (fmt_Errorf "yaml: did not find expected node content"))
    as (Herr & (c & Hc & _ & Hnil & _) & _).
  - reflexivity.
  - discriminate.
  - by eexists.
  - right. split; [eexists|]; reflexivity.
  - reflexivity.
  - reflexivity.
  - split; [exact Herr|]. exists c. by split.
Defined.

(** * The rest of the package *)

(** ** Strings and patterns *)

Lemma string_app_cons (c : ascii) (s t : string) : String c s ++ t = String c (s ++ t).
Proof. reflexivity. Qed.

Lemma string_app_nil_l (s : string) : "" ++ s = s.
Proof. reflexivity. Qed.

Lemma string_app_nil_r (s : string) : s ++ "" = s.
Proof. induction s as [|c s IH]; [done | by rewrite string_app_cons, IH]. Qed.

Lemma string_app_assoc (a b c : string) : (a ++ b) ++ c = a ++ b ++ c.
Proof. induction a as [|x a IH]; [done | by rewrite !string_app_cons, IH]. Qed.

Lemma string_app_eq_nil (a b : string) : a ++ b = "" → a = "" ∧ b = "".
Proof. destruct a; [done | by rewrite string_app_cons]. Qed.

Lemma string_app_eq_cons (a b : string) (c : ascii) (s : string) :
  a ++ b = String c s →
  (a = "" ∧ b = String c s) ∨ (∃ a', a = String c a' ∧ s = a' ++ b).
Proof.
  destruct a as [|x a]; [by left|]. rewrite string_app_cons.
  intros [= -> <-]. right. by exists a.
Qed.

(** [String.prefix] and [strings.Contains] in terms of concatenation. *)
Lemma prefix_app (p s : string) : String.prefix p s = true ↔ ∃ post, s = p ++ post.
Proof.
  revert s. induction p as [|c p IH]; intros s.
  - split; [|by destruct s]. intros _. by exists s.
  - destruct s as [|d s]; simpl.
    + split; [done | by intros [post ?]].
    + destruct (ascii_dec c d) as [->|Hne].
      * rewrite IH. split; intros [post Hpost]; exists post; [by subst | by injection Hpost].
      * split; [done|]. intros [post [= ? ?]]. by subst.
Qed.

Lemma strings_Contains_eq (s substr : string) :
  strings_Contains s substr
  = if String.prefix substr s then true
    else match s with
         | EmptyString => false
         | String _ rest => strings_Contains rest substr
         end.
Proof. by destruct s. Qed.

Lemma strings_Contains_app (s substr : string) :
  strings_Contains s substr = true ↔ ∃ pre post, s = pre ++ substr ++ post.
Proof.
  induction s as [|c s IH]; rewrite strings_Contains_eq.
  - destruct (String.prefix substr "") eqn:Hp.
    + split; [|done]. intros _. apply prefix_app in Hp as [post Hpost].
      exists "", post. done.
    + split; [done|]. intros (pre & post & Heq). symmetry in Heq.
      apply string_app_eq_nil in Heq as [-> Heq]. 
      assert (String.prefix substr "" = true) as Hp'
        by (apply prefix_app; exists post; done).
      congruence.
  - destruct (String.prefix substr (String c s)) eqn:Hp.
    + split; [|done]. intros _. apply prefix_app in Hp as [post Hpost].
      exists "", post. done.
    + rewrite IH. split.
      * intros (pre & post & ->). by exists (String c pre), post.
      * intros (pre & post & Heq). destruct pre as [|x pre].
        -- simpl in Heq.
           assert (String.prefix substr (String c s) = true) as Hp'
             by (apply prefix_app; exists post; done).
           congruence.
        -- injection Heq as -> ->. by exists pre, post.
Qed.

Section patterns.
Import regexp.

Lemma Matches_nullable (r : Regexp) : nullable r = true ↔ Matches r "".
Proof.
  split.
  - induction r; simpl; intros Hn; try done.
    + constructor.
    + apply andb_true_iff in Hn as [H1 H2].
      change "" with ("" ++ ""). constructor; auto.
    + apply orb_true_iff in Hn as [H1|H2]; [apply Matches_left | apply Matches_right]; auto.
    + constructor.
  - intros Hm. remember "" as s eqn:Hs. induction Hm; simpl; try done.
    + apply string_app_eq_nil in Hs as [-> ->]. by rewrite IHHm1, IHHm2.
    + by rewrite IHHm.
    + rewrite IHHm by done. apply orb_true_r.
Qed.

Lemma Matches_class_inv (ranges : list (ascii * ascii)) (s : string) :
  Matches (OpCharClass ranges) s ↔ ∃ c, s = String c "" ∧ inClass c ranges = true.
Proof.
  split.
  - inversion 1; subst. eauto.
  - intros (c & -> & Hc). by constructor.
Qed.

Lemma Matches_concat_inv (r1 r2 : Regexp) (s : string) :
  Matches (OpConcat r1 r2) s ↔ ∃ s1 s2, s = s1 ++ s2 ∧ Matches r1 s1 ∧ Matches r2 s2.
Proof.
  split.
  - inversion 1; subst. eauto.
  - intros (s1 & s2 & -> & H1 & H2). by constructor.
Qed.

Lemma Matches_alternate_inv (r1 r2 : Regexp) (s : string) :
  Matches (OpAlternate r1 r2) s ↔ Matches r1 s ∨ Matches r2 s.
Proof.
  split.
  - inversion 1; subst; auto.
  - intros [?|?]; [by apply Matches_left | by apply Matches_right].
Qed.

Lemma Matches_empty_inv (s : string) : Matches OpEmptyMatch s ↔ s = "".
Proof. split; [by inversion 1 | intros ->; constructor]. Qed.

Lemma Matches_quest_inv (r : Regexp) (s : string) :
  Matches (OpQuest r) s ↔ Matches r s ∨ s = "".
Proof. unfold OpQuest. by rewrite Matches_alternate_inv, Matches_empty_inv. Qed.

Lemma Matches_star_cons (r : Regexp) (c : ascii) (s : string) :
  Matches (OpStar r) (String c s) →
  ∃ s1 s2, s = s1 ++ s2 ∧ Matches r (String c s1) ∧ Matches (OpStar r) s2.
Proof.
  intros Hm. remember (OpStar r) as r' eqn:Hr. remember (String c s) as t eqn:Ht.
  revert s Ht. induction Hm; intros s' Ht; try done.
  injection Hr as ->.
  apply string_app_eq_cons in Ht as [[-> ->]|(a' & -> & ->)].
  - by apply IHHm2.
  - by exists a', s2.
Qed.

Lemma Matches_derive (r : Regexp) (c : ascii) (s : string) :
  Matches (derive c r) s ↔ Matches r (String c s).
Proof.
  revert s. induction r as [| |ranges|r1 IH1 r2 IH2|r1 IH1 r2 IH2|r IH]; intros s; simpl.
  - split; inversion 1.
  - split; inversion 1.
  - rewrite Matches_class_inv. destruct (inClass c ranges) eqn:Hc.
    + rewrite Matches_empty_inv. split.
      * intros ->. eauto.
      * by intros (c' & [= -> ->] & _).
    + split; [inversion 1|]. intros (c' & [= -> ->] & Hc'). congruence.
  - assert (Matches (OpConcat (derive c r1) r2) s
            ↔ ∃ s1 s2, s = s1 ++ s2 ∧ Matches r1 (String c s1) ∧ Matches r2 s2) as Hleft.
    { rewrite Matches_concat_inv. split.
      - intros (s1 & s2 & -> & H1 & H2). apply IH1 in H1. eauto.
      - intros (s1 & s2 & -> & H1 & H2). apply IH1 in H1. eauto. }
    rewrite (Matches_concat_inv r1 r2 (String c s)).
    destruct (nullable r1) eqn:Hn.
    + rewrite Matches_alternate_inv, Hleft, IH2. split.
      * intros [(s1 & s2 & -> & H1 & H2)|H2].
        -- by exists (String c s1), s2.
        -- apply Matches_nullable in Hn. by exists "", (String c s).
      * intros (s1 & s2 & Heq & H1 & H2). symmetry in Heq.
        apply string_app_eq_cons in Heq as [[-> ->]|(a' & -> & ->)]; [by right|].
        left. eauto.
    + rewrite Hleft. split.
      * intros (s1 & s2 & -> & H1 & H2). by exists (String c s1), s2.
      * intros (s1 & s2 & Heq & H1 & H2). symmetry in Heq.
        apply string_app_eq_cons in Heq as [[-> ->]|(a' & -> & ->)]; [|eauto].
        apply Matches_nullable in H1. congruence.
  - by rewrite !Matches_alternate_inv, IH1, IH2.
  - rewrite Matches_concat_inv. split.
    + intros (s1 & s2 & -> & H1 & H2). apply IH in H1.
      change (String c (s1 ++ s2)) with (String c s1 ++ s2). by constructor.
    + intros Hm. apply Matches_star_cons in Hm as (s1 & s2 & -> & H1 & H2).
      apply IH in H1. eauto.
Qed.

(** The matcher decides [Matches]. *)
Lemma matchText_Matches (r : Regexp) (s : string) :
  matchText r s = true ↔ Matches r s.
Proof.
  revert r. induction s as [|c s IH]; intros r; simpl.
  - apply Matches_nullable.
  - by rewrite IH, Matches_derive.
Qed.

Lemma inRange_single (c x : ascii) : inRange c (x, x) = true ↔ c = x.
Proof.
  unfold inRange. simpl. rewrite andb_true_iff, !N.leb_le. split.
  - intros [H1 H2]. assert (N_of_ascii c = N_of_ascii x) as Heq by lia.
    by rewrite <- (ascii_N_embedding c), <- (ascii_N_embedding x), Heq.
  - intros ->. lia.
Qed.

Lemma Matches_literal_inv (x : ascii) (s : string) :
  Matches (OpLiteral x) s ↔ s = String x "".
Proof.
  unfold OpLiteral. rewrite Matches_class_inv. simpl. split.
  - intros (c & -> & Hc). rewrite orb_false_r in Hc. by apply inRange_single in Hc as ->.
  - intros ->. exists x. split; [done|]. rewrite orb_false_r. by apply inRange_single.
Qed.

End patterns.

(** ** Loading and registering, in full *)

Section loading.
Context `{Env}.

Lemma extractRHOAIValuesFrom_find (files : list chart_File) (c : HelmManagedComponent) :
  (extractRHOAIValuesFrom files c).2
  = match find (λ f, bool_decide (file_Name f = "values.rhoai.yaml")) files with
    | None => set_RHOAIValues c (Some ∅)
    | Some file =>
        match yaml_Unmarshal_Values (file_Data file) with
        | Ok rhoaiValues => set_RHOAIValues c rhoaiValues
        | Err _ => c
        end
    end.
Proof.
  induction files as [|f rest IH]; simpl; [done|].
  destruct (bool_decide (file_Name f = "values.rhoai.yaml")); [|done].
  by destruct (yaml_Unmarshal_Values (file_Data f)).
Qed.

Lemma storeChart_loaded (c : HelmManagedComponent) (chart : chart_Chart)
    (paths : list string) :
  storeChart c chart paths
  = {| load_err := None;
       load_component :=
         match overridesFile chart with
         | None => set_RHOAIValues (set_Chart c (Some chart)) (Some ∅)
         | Some file =>
             match yaml_Unmarshal_Values (file_Data file) with
             | Ok rhoaiValues => set_RHOAIValues (set_Chart c (Some chart)) rhoaiValues
             | Err _ => set_Chart c (Some chart)
             end
         end;
       load_paths := paths |}.
Proof.
  unfold storeChart, extractRHOAIValues, overridesFile. simpl.
  rewrite <- extractRHOAIValuesFrom_find.
  by destruct (extractRHOAIValuesFrom _ _).
Qed.

(** What [LoadChart] does, by the answers of the loader. *)
Lemma LoadChart_loaded (c : HelmManagedComponent) (chartPath : string) :
  let fullPath := filepath_Join "charts" (chartPath ++ ".tgz") in
  let dirPath := filepath_Join "charts" chartPath in
  LoadChart c chartPath
  = match loader_Load fullPath with
    | Ok chart => storeChart c chart [fullPath]
    | Err _ =>
        match loader_Load dirPath with
        | Ok chart => storeChart c chart [fullPath; dirPath]
        | Err err =>
            {| load_err := Some (fmt_Errorf_w
                 ("failed to load chart from " ++ fullPath ++ " or " ++ dirPath
                    ++ ": " ++ Error err) err);
               load_component := c; load_paths := [fullPath; dirPath] |}
        end
    end.
Proof. reflexivity. Qed.

(** X7.  [LoadChart] tries the archive [charts/<chartPath>.tgz] and, only
    when that fails, the directory [charts/<chartPath>].  With the chart that
    comes back it stores the chart and takes the platform overrides from the
    first chart file named [values.rhoai.yaml]: the parsed tree when the
    file parses, the empty (not nil) tree when there is no such file, and
    the overrides that the component held before when the file does not
    parse.  It returns no error and leaves name, generator, watches and
    pending watches alone. *)
Theorem LoadChart_stores (c : HelmManagedComponent) (chartPath : string)
    (chart : chart_Chart) :
  let fullPath := filepath_Join "charts" (chartPath ++ ".tgz") in
  let dirPath := filepath_Join "charts" chartPath in
  (loader_Load fullPath = Ok chart
   ∨ (∃ e1, loader_Load fullPath = Err e1) ∧ loader_Load dirPath = Ok chart) →
  let loaded := LoadChart c chartPath in
  load_err loaded = None
  ∧ load_paths loaded
    = (match loader_Load fullPath with Ok _ => [fullPath] | Err _ => [fullPath; dirPath] end)
  ∧ Chart (load_component loaded) = Some chart
  ∧ RHOAIValues (load_component loaded)
    = match overridesFile chart with
      | None => Some ∅
      | Some file =>
          match yaml_Unmarshal_Values (file_Data file) with
          | Ok rhoaiValues => rhoaiValues
          | Err _ => RHOAIValues c
          end
      end
  ∧ ChartName (load_component loaded) = ChartName c
  ∧ ValuesGenerator (load_component loaded) = ValuesGenerator c
  ∧ Watches (load_component loaded) = Watches c
  ∧ pendingWatches (load_component loaded) = pendingWatches c.
Proof.
  intros fullPath dirPath Hload loaded. subst loaded.
  rewrite LoadChart_loaded. fold fullPath dirPath.
  assert (∀ paths,
    let loaded := storeChart c chart paths in
    load_err loaded = None ∧ load_paths loaded = paths
    ∧ Chart (load_component loaded) = Some chart
    ∧ RHOAIValues (load_component loaded)
      = match overridesFile chart with
        | None => Some ∅
        | Some file =>
            match yaml_Unmarshal_Values (file_Data file) with
            | Ok rhoaiValues => rhoaiValues
            | Err _ => RHOAIValues c
            end
        end
    ∧ ChartName (load_component loaded) = ChartName c
    ∧ ValuesGenerator (load_component loaded) = ValuesGenerator c
    ∧ Watches (load_component loaded) = Watches c
    ∧ pendingWatches (load_component loaded) = pendingWatches c) as Hstore.
  { intros paths. simpl. rewrite storeChart_loaded. simpl.
    destruct (overridesFile chart) as [file|]; [|done].
    by destruct (yaml_Unmarshal_Values (file_Data file)). }
  destruct Hload as [->|[[e1 ->] ->]]; apply Hstore.
Qed.

(** X1.  A successful registration.  For a name that is not in the
    catalog, a valid configuration and a chart that the loader finds (as an
    archive, or as a directory when there is no archive), [Register] returns
    no error; afterwards [GetComponent] finds under the name a component
    with the chart name, generator and watches of the configuration, the
    loaded chart and no pending watch, and the entries under all other names
    are as before.  The loader is asked for [charts/<ChartName>.tgz] and,
    only when that fails, for [charts/<ChartName>]: the paths come from the
    chart name of the configuration, not from the component name. *)
Theorem Register_stores (r : HelmManagedComponentRegistry) (name : string)
    (config : ComponentConfig) (chart : chart_Chart) :
  let fullPath := filepath_Join "charts" (cfg_ChartName config ++ ".tgz") in
  let dirPath := filepath_Join "charts" (cfg_ChartName config) in
  GetComponent r name = None →
  cfg_ChartName config ≠ "" →
  is_Some (cfg_ValuesGenerator config) →
  (loader_Load fullPath = Ok chart
   ∨ (∃ e1, loader_Load fullPath = Err e1) ∧ loader_Load dirPath = Ok chart) →
  let registered := Register r name config in
  reg_err registered = None
  ∧ reg_loads registered
    = (match loader_Load fullPath with Ok _ => [fullPath] | Err _ => [fullPath; dirPath] end)
  ∧ (∃ c, GetComponent (reg_registry registered) name = Some c
          ∧ ChartName c = cfg_ChartName config
          ∧ Chart c = Some chart
          ∧ ValuesGenerator c = cfg_ValuesGenerator config
          ∧ Watches c = cfg_Watches config
          ∧ HasPendingWatches c = false)
  ∧ (∀ other, other ≠ name →
       GetComponent (reg_registry registered) other = GetComponent r other).
Proof.
  intros fullPath dirPath Hfresh Hname Hgen Hload registered. subst registered.
  unfold Register. rewrite validateComponentConfig_valid by done.
  unfold GetComponent in Hfresh. rewrite Hfresh.
  set (fresh := {| ChartName := cfg_ChartName config; Chart := None;
                   ValuesGenerator := cfg_ValuesGenerator config;
                   Watches := cfg_Watches config;
                   RHOAIValues := None; pendingWatches := Some ∅ |}).
  assert (∃ paths c,
    LoadChart fresh (cfg_ChartName config)
    = {| load_err := None; load_component := c; load_paths := paths |}
    ∧ paths = (match loader_Load fullPath with
               | Ok _ => [fullPath] | Err _ => [fullPath; dirPath] end)
    ∧ ChartName c = cfg_ChartName config ∧ Chart c = Some chart
    ∧ ValuesGenerator c = cfg_ValuesGenerator config
    ∧ Watches c = cfg_Watches config ∧ pendingWatches c = Some ∅)
    as (paths & c & -> & Hpaths & Hc).
  { rewrite LoadChart_loaded. fold fullPath dirPath.
    destruct Hload as [->|[[e1 ->] ->]]; rewrite storeChart_loaded;
      eexists _, _; (split; [reflexivity|]); (split; [reflexivity|]);
      destruct (overridesFile chart) as [file|]; try done;
      by destruct (yaml_Unmarshal_Values (file_Data file)). }
  simpl. split; [done|]. split; [done|]. split.
  - exists c. unfold GetComponent, HelmManagedComponentRegistry.
    rewrite lookup_insert_eq. destruct Hc as (? & ? & ? & ? & Hp).
    repeat (split; [done|]). unfold HasPendingWatches. rewrite Hp.
    by rewrite map_size_empty.
  - intros other Hother. unfold GetComponent, HelmManagedComponentRegistry.
    by rewrite lookup_insert_ne.
Qed.

(** X2.  When the loader finds neither the archive nor the directory,
    [Register] returns an error that is [ErrChartLoadFailed] and no other
    sentinel of the package; its text names both paths and carries the
    error of the directory load, the error of the archive load is lost.  The
    catalog is unchanged, so the name stays free. *)
Theorem Register_chart_load_failed (r : HelmManagedComponentRegistry) (name : string)
    (config : ComponentConfig) (e1 e2 : error) :
  let fullPath := filepath_Join "charts" (cfg_ChartName config ++ ".tgz") in
  let dirPath := filepath_Join "charts" (cfg_ChartName config) in
  GetComponent r name = None →
  cfg_ChartName config ≠ "" →
  is_Some (cfg_ValuesGenerator config) →
  loader_Load fullPath = Err e1 →
  loader_Load dirPath = Err e2 →
  let registered := Register r name config in
  (∃ e, reg_err registered = Some e
        ∧ errors_Is e ErrChartLoadFailed = true
        ∧ errors_Is e ErrInvalidConfig = false
        ∧ errors_Is e ErrDuplicateComponent = false
        ∧ Error e = "chart load failed: failed to load chart from " ++ fullPath
                      ++ " or " ++ dirPath ++ ": " ++ Error e2)
  ∧ reg_registry registered = r
  ∧ GetComponent (reg_registry registered) name = None
  ∧ reg_loads registered = [fullPath; dirPath].
Proof.
  intros fullPath dirPath Hfresh Hname Hgen Harchive Hdir registered. subst registered.
  unfold Register. rewrite validateComponentConfig_valid by done.
  unfold GetComponent in Hfresh. rewrite Hfresh.
  rewrite LoadChart_loaded. fold fullPath dirPath. rewrite Harchive, Hdir. simpl.
  split; [|done]. eexists. split; [done|].
  split; [apply errors_Is_wrap_v|].
  split; [by apply errors_Is_wrap_v_other|].
  split; [by apply errors_Is_wrap_v_other|]. done.
Qed.

(** X3.  [Register] never overwrites and never removes: an entry of the
    catalog is there unchanged after every [Register] call, whatever the name
    and the configuration of the call; a call that returns an error
    leaves the whole catalog as it was, and a call that returns no error
    has added exactly the entry for its name, which was free. *)
Theorem Register_preserves_entries (r : HelmManagedComponentRegistry) (name : string)
    (config : ComponentConfig) :
  let registered := Register r name config in
  (∀ other c, GetComponent r other = Some c →
              GetComponent (reg_registry registered) other = Some c)
  ∧ (is_Some (reg_err registered) → reg_registry registered = r)
  ∧ (reg_err registered = None →
       GetComponent r name = None
       ∧ ∃ c, reg_registry registered = <[name := c]> r).
Proof.
  simpl. unfold Register, GetComponent.
  destruct (validateComponentConfig config) as [bad|]; simpl.
  { split; [done|]. split; [done|]. done. }
  destruct (r !! name) as [dup|] eqn:Hdup; simpl.
  { split; [done|]. split; [done|]. done. }
  destruct (load_err (LoadChart _ _)) as [lerr|]; simpl.
  { split; [done|]. split; [done|]. done. }
  split; [|split].
  - intros other c Hother. unfold HelmManagedComponentRegistry.
    rewrite lookup_insert_ne; [done|]. intros ->. congruence.
  - by intros [? ?].
  - intros _. split; [done|]. eauto.
Qed.

(** X4.  [ListComponents] returns the names under which [GetComponent]
    finds a component, each once; after a successful [Register] these are
    the name of the call and the names from before. *)
Theorem ListComponents_names (r : HelmManagedComponentRegistry) :
  (∀ name, name ∈ ListComponents r ↔ is_Some (GetComponent r name))
  ∧ NoDup (ListComponents r)
  ∧ ListComponents NewHelmManagedComponentRegistry = []
  ∧ (∀ name config,
       reg_err (Register r name config) = None →
       ListComponents (reg_registry (Register r name config))
       ≡ₚ name :: ListComponents r).
Proof.
  unfold ListComponents, GetComponent, HelmManagedComponentRegistry.
  split; [|split; [|split]].
  - intros name. rewrite list_elem_of_fmap. split.
    + intros ([n c] & -> & Hin). apply elem_of_map_to_list in Hin. by exists c.
    + intros [c Hc]. exists (name, c). split; [done|]. by apply elem_of_map_to_list.
  - apply NoDup_fst_map_to_list.
  - reflexivity.
  - intros name config Hok.
    unfold Register in *.
    destruct (validateComponentConfig config) as [bad|]; [done|].
    destruct (r !! name) as [dup|] eqn:Hdup; [done|].
    destruct (load_err (LoadChart _ _)) as [lerr|]; [done|]. simpl.
    generalize (load_component
      (LoadChart {| ChartName := cfg_ChartName config; Chart := None;
                    ValuesGenerator := cfg_ValuesGenerator config;
                    Watches := cfg_Watches config;
                    RHOAIValues := None; pendingWatches := Some ∅ |}
         (cfg_ChartName config))).
    intros c.
    apply (fmap_Permutation fst (map_to_list (<[name := c]> r))
             ((name, c) :: map_to_list r)).
    by apply (map_to_list_insert (M := gmap string)).
Qed.

End loading.

(** ** The render pipeline, in full *)

Section pipeline.
Context `{Env}.

(** X9.  [shouldExcludeFile] excludes exactly the names that hold
    [NOTES.txt], [/tests/] or [/hooks/] somewhere: at the start, in the
    middle or at the end, whatever comes before and after. *)
Theorem shouldExcludeFile_markers (filename : string) :
  shouldExcludeFile filename = true
  ↔ ∃ marker pre post,
      marker ∈ excludedMarkers ∧ filename = pre ++ marker ++ post.
Proof.
  unfold shouldExcludeFile, excludedMarkers. split.
  - destruct (strings_Contains filename "NOTES.txt") eqn:Hnotes.
    { intros _. apply strings_Contains_app in Hnotes as (pre & post & ->).
      exists "NOTES.txt", pre, post. split; [|done]. rewrite !elem_of_cons. tauto. }
    destruct (strings_Contains filename "/tests/") eqn:Htests.
    { intros _. apply strings_Contains_app in Htests as (pre & post & ->).
      exists "/tests/", pre, post. split; [|done]. rewrite !elem_of_cons. tauto. }
    destruct (strings_Contains filename "/hooks/") eqn:Hhooks; [|done].
    intros _. apply strings_Contains_app in Hhooks as (pre & post & ->).
    exists "/hooks/", pre, post. split; [|done]. rewrite !elem_of_cons. tauto.
  - intros (marker & pre & post & Hmarker & ->).
    rewrite !elem_of_cons, elem_of_nil in Hmarker.
    destruct Hmarker as [->|[->|[->|[]]]].
    + rewrite (proj2 (strings_Contains_app _ "NOTES.txt")); [done | eauto].
    + destruct (strings_Contains _ "NOTES.txt"); [done|].
      rewrite (proj2 (strings_Contains_app _ "/tests/")); [done | eauto].
    + destruct (strings_Contains _ "NOTES.txt"); [done|].
      destruct (strings_Contains _ "/tests/"); [done|].
      rewrite (proj2 (strings_Contains_app _ "/hooks/")); [done | eauto].
Qed.

(** The loop of [RenderTemplates], whatever the order in which the entries
    are visited. *)
Lemma filterManifest_fold (manifests : gmap string string) :
  match map_fold filterManifest (Ok ∅) manifests with
  | Ok filtered =>
      (∀ filename content,
         manifests !! filename = Some content →
         shouldExcludeFile filename = false → validateYAML content = None)
      ∧ ∀ filename,
          filtered !! filename
          = if shouldExcludeFile filename then None else manifests !! filename
  | Err _ =>
      ∃ filename content,
        manifests !! filename = Some content
        ∧ shouldExcludeFile filename = false ∧ is_Some (validateYAML content)
  end.
Proof.
  apply (map_fold_weak_ind
    (λ (acc : result (gmap string string)) (m : gmap string string),
       match acc with
       | Ok filtered =>
           (∀ filename content,
              m !! filename = Some content →
              shouldExcludeFile filename = false → validateYAML content = None)
           ∧ ∀ filename,
               filtered !! filename
               = if shouldExcludeFile filename then None else m !! filename
       | Err _ =>
           ∃ filename content,
             m !! filename = Some content
             ∧ shouldExcludeFile filename = false ∧ is_Some (validateYAML content)
       end)).
  - split.
    + intros filename content Hin. by rewrite lookup_empty in Hin.
    + intros filename. rewrite lookup_empty. by destruct (shouldExcludeFile filename).
  - intros i x m acc Hfresh IH. destruct acc as [filtered|err]; simpl.
    + destruct IH as [Hvalid Hlookup].
      destruct (shouldExcludeFile i) eqn:Hexcl.
      * split.
        -- intros filename content Hin Hkept.
           rewrite lookup_insert_ne in Hin by (intros ->; congruence). eauto.
        -- intros filename. rewrite Hlookup.
           destruct (shouldExcludeFile filename) eqn:Hf; [done|].
           rewrite lookup_insert_ne by (intros ->; congruence). done.
      * destruct (validateYAML x) as [yerr|] eqn:Hyaml.
        -- exists i, x. rewrite lookup_insert_eq. eauto.
        -- split.
           ++ intros filename content Hin Hkept.
              destruct (decide (i = filename)) as [->|Hne].
              ** rewrite lookup_insert_eq in Hin. by injection Hin as <-.
              ** rewrite lookup_insert_ne in Hin by done. eauto.
           ++ intros filename. destruct (decide (i = filename)) as [->|Hne].
              ** by rewrite !lookup_insert_eq, Hexcl.
              ** by rewrite !lookup_insert_ne, Hlookup.
    + destruct IH as (filename & content & Hin & Hkept & Hbad).
      exists filename, content. split; [|done].
      rewrite lookup_insert_ne; [done|]. intros ->. congruence.
Qed.

(** X8.  When the engine renders the chart, [RenderTemplates] succeeds
    exactly when every rendered entry that [shouldExcludeFile] keeps is
    valid YAML; its result then holds the kept entries with the text the
    engine gave them and nothing else.  The excluded entries (notes, tests,
    hooks) are not validated: their text cannot make the call fail. *)
Theorem RenderTemplates_filters (c : HelmManagedComponent) (chart : chart_Chart)
    (values : Values) (manifests : gmap string string) :
  Chart c = Some chart →
  engine_Render chart values = Ok manifests →
  ((∃ filtered, RenderTemplates c values = Ok filtered)
   ↔ ∀ filename content,
       manifests !! filename = Some content →
       shouldExcludeFile filename = false → validateYAML content = None)
  ∧ ∀ filtered, RenderTemplates c values = Ok filtered →
      ∀ filename,
        filtered !! filename
        = if shouldExcludeFile filename then None else manifests !! filename.
Proof.
  intros Hc Hengine. unfold RenderTemplates. rewrite Hc, Hengine.
  pose proof (filterManifest_fold manifests) as Hfold.
  destruct (map_fold filterManifest (Ok ∅) manifests) as [filtered|err].
  - destruct Hfold as [Hvalid Hlookup]. split.
    + split; [done | eauto].
    + by intros ? [= <-].
  - destruct Hfold as (filename & content & Hin & Hkept & [yerr Hbad]). split; [|done].
    split; [by intros [? ?]|]. intros Hvalid.
    rewrite (Hvalid _ _ Hin Hkept) in Hbad. done.
Qed.

(** X5.  The errors of [Render].  An error that [Render] returns is
    exactly one of three: [ErrComponentNotFound], when no component is
    registered under the name; [ErrValuesGeneration], when the generator of
    the component fails; [ErrTemplateRendering], when [RenderTemplates]
    fails on the merged values.  In the first two cases the catalog is as
    it was before the call. *)
Theorem Render_errors (r : HelmManagedComponentRegistry) (name : string)
    (spec : Spec) (e : error) :
  (Render r name spec).1 = Returns (Err e) →
  (errors_Is e ErrComponentNotFound = true ↔ GetComponent r name = None)
  ∧ (errors_Is e ErrValuesGeneration = true
     ↔ ∃ c generate cause,
         GetComponent r name = Some c ∧ ValuesGenerator c = Some generate
         ∧ generate spec = Err cause)
  ∧ (errors_Is e ErrTemplateRendering = true
     ↔ ∃ c generate componentValues cause,
         GetComponent r name = Some c ∧ ValuesGenerator c = Some generate
         ∧ generate spec = Ok componentValues
         ∧ RenderTemplates c (MergeValues c componentValues).1 = Err cause)
  ∧ (errors_Is e ErrTemplateRendering = false → (Render r name spec).2 = r).
Proof.
  destruct (GetComponent r name) as [c|] eqn:Hget.
  - destruct (ValuesGenerator c) as [generate|] eqn:Hgen;
      [|by unfold Render; rewrite Hget, Hgen].
    destruct (generate spec) as [componentValues|cause] eqn:Hvalues.
    + rewrite (Render_step r name spec c generate componentValues) by done. simpl.
      destruct (RenderTemplates c (MergeValues c componentValues).1)
        as [manifests|rerr] eqn:Hrender; [done|].
      intros [= <-]. split; [|split; [|split]].
      * unfold ErrTemplateRendering, ErrComponentNotFound.
        by rewrite errors_Is_wrap_v_other.
      * unfold ErrTemplateRendering, ErrValuesGeneration.
        rewrite errors_Is_wrap_v_other by done. split; [done|].
        intros (c' & generate' & cause' & [= <-] & Hgen' & Hvalues'). congruence.
      * rewrite errors_Is_wrap_v. split; [|done]. intros _.
        by exists c, generate, componentValues, rerr.
      * by rewrite errors_Is_wrap_v.
    + unfold Render. rewrite Hget, Hgen, Hvalues. simpl.
      intros [= <-]. split; [|split; [|split]].
      * unfold ErrValuesGeneration, ErrComponentNotFound.
        by rewrite errors_Is_wrap_v_other.
      * rewrite errors_Is_wrap_v. split; [|done]. intros _.
        by exists c, generate, cause.
      * unfold ErrValuesGeneration, ErrTemplateRendering.
        rewrite errors_Is_wrap_v_other by done. split; [done|].
        intros (c' & generate' & cv' & cause' & [= <-] & Hgen' & Hvalues' & _).
        congruence.
      * done.
  - unfold Render. rewrite Hget. simpl. intros [= <-].
    unfold ErrComponentNotFound, ErrValuesGeneration, ErrTemplateRendering.
    rewrite !errors_Is_Errorf_w_sentinel. split; [|split; [|split]].
    + by rewrite bool_decide_eq_true_2.
    + rewrite bool_decide_eq_false_2 by done. split; [done|].
      by intros (c' & ? & ? & ? & _).
    + rewrite bool_decide_eq_false_2 by done. split; [done|].
      by intros (c' & ? & ? & ? & ? & _).
    + done.
Qed.

End pipeline.

(** ** The watch lifecycle, in full *)

Section lifecycle.
Context `{Env}.

Lemma foldl_addWatch_lookup (c : HelmManagedComponent)
    (watches : list GroupVersionKind) (p : gmap GroupVersionKind bool)
    (gvk : GroupVersionKind) :
  foldl (addWatch c) p watches !! gvk
  = if bool_decide (gvk ∈ watches) && negb (isBuiltInType gvk) then Some true
    else p !! gvk.
Proof.
  revert p. induction watches as [|w watches IH]; intros p; simpl; [done|].
  rewrite IH. unfold addWatch, registerWatch.
  destruct (decide (gvk = w)) as [->|Hne].
  - rewrite (bool_decide_eq_true_2 (w ∈ w :: watches)) by by left.
    destruct (isBuiltInType w); simpl.
    + by rewrite andb_false_r.
    + rewrite lookup_insert_eq. by destruct (bool_decide (w ∈ watches)).
  - assert (bool_decide (gvk ∈ w :: watches) = bool_decide (gvk ∈ watches)) as ->.
    { apply bool_decide_ext. rewrite elem_of_cons.
      split; [by intros [?|?] | by right]. }
    destruct (isBuiltInType w); [done|]. by rewrite lookup_insert_ne.
Qed.

Lemma LoadChart_frame (c : HelmManagedComponent) (chartPath : string) :
  let c' := load_component (LoadChart c chartPath) in
  ChartName c' = ChartName c ∧ ValuesGenerator c' = ValuesGenerator c
  ∧ Watches c' = Watches c ∧ pendingWatches c' = pendingWatches c
  ∧ (is_Some (Chart c) → is_Some (Chart c'))
  ∧ (load_err (LoadChart c chartPath) = None → is_Some (Chart c')).
Proof.
  simpl. rewrite LoadChart_loaded.
  assert (∀ chart paths,
    let c' := load_component (storeChart c chart paths) in
    ChartName c' = ChartName c ∧ ValuesGenerator c' = ValuesGenerator c
    ∧ Watches c' = Watches c ∧ pendingWatches c' = pendingWatches c
    ∧ is_Some (Chart c')) as Hstore.
  { intros chart paths. simpl. rewrite storeChart_loaded. simpl.
    destruct (overridesFile chart) as [file|]; [|by repeat split].
    by destruct (yaml_Unmarshal_Values (file_Data file)); repeat split. }
  destruct (loader_Load _) as [chart|e1].
  { destruct (Hstore chart [filepath_Join "charts" (chartPath ++ ".tgz")])
      as (? & ? & ? & ? & ?). by repeat split. }
  destruct (loader_Load _) as [chart|e2].
  { destruct (Hstore chart [filepath_Join "charts" (chartPath ++ ".tgz");
                            filepath_Join "charts" chartPath])
      as (? & ? & ? & ? & ?). by repeat split. }
  simpl. by repeat split.
Qed.

Lemma MergeValues_frame (c : HelmManagedComponent) (componentValues : Values) :
  let c' := (MergeValues c componentValues).2 in
  ChartName c' = ChartName c ∧ ValuesGenerator c' = ValuesGenerator c
  ∧ Watches c' = Watches c ∧ pendingWatches c' = pendingWatches c
  ∧ Chart c' = Chart c.
Proof.
  simpl. unfold MergeValues. destruct (Chart c) eqn:Hc; [|done].
  by destruct (nonEmpty (RHOAIValues c)); simpl; rewrite ?Hc.
Qed.

(** What no call on a component changes, and what no call takes away. *)
Lemma afterLifecycleCall_frame (c : HelmManagedComponent) (call : LifecycleCall) :
  let c' := afterLifecycleCall c call in
  ChartName c' = ChartName c ∧ ValuesGenerator c' = ValuesGenerator c
  ∧ Watches c' = Watches c
  ∧ (is_Some (Chart c) → is_Some (Chart c'))
  ∧ (is_Some (pendingWatches c) → is_Some (pendingWatches c')).
Proof.
  simpl. destruct call as [|call]; simpl.
  - repeat split; try done; intros _; by eexists.
  - destruct call; simpl; try by repeat split.
    + repeat split; try done; by intros [p ->].
    + unfold RegisterPendingWatch. destruct (negb _); simpl; [by repeat split|].
      repeat split; try done; by intros [p ->].
    + destruct (LoadChart_frame c chartPath) as (? & ? & ? & Hp & ? & _).
      repeat split; try done; by rewrite Hp.
    + destruct (MergeValues_frame c componentValues) as (? & ? & ? & Hp & Hc).
      repeat split; try done; by rewrite ?Hp, ?Hc.
Qed.

Lemma afterLifecycleCall_pendingWithin (c : HelmManagedComponent)
    (call : LifecycleCall) :
  pendingWithin c (Watches c) →
  pendingWithin (afterLifecycleCall c call) (Watches c).
Proof.
  intros Hc. destruct call as [|call]; simpl.
  - intros p gvk b [= <-]. rewrite foldl_addWatch_lookup.
    destruct (bool_decide (gvk ∈ Watches c)) eqn:Hin; simpl.
    + destruct (isBuiltInType gvk) eqn:Hb; simpl.
      * destruct (pendingWatches c) as [p|] eqn:Hp; [|by rewrite lookup_empty].
        intros Hgvk. destruct (Hc p gvk b Hp Hgvk) as (? & ? & ?). congruence.
      * intros [= <-]. by apply bool_decide_eq_true in Hin.
    + destruct (pendingWatches c) as [p|] eqn:Hp; [|by rewrite lookup_empty].
      intros Hgvk. by apply (Hc p).
  - assert (∀ gvk, pendingWithin (MarkWatchRegistered c gvk) (Watches c)) as Hmark.
    { intros d p gvk b. unfold MarkWatchRegistered. simpl.
      destruct (pendingWatches c) as [q|] eqn:Hq; [|done]. simpl. intros [= <-].
      destruct (decide (d = gvk)) as [->|Hne]; [by rewrite lookup_delete_eq|].
      rewrite lookup_delete_ne by done. intros Hgvk. by apply (Hc q). }
    destruct call; simpl; try done; try apply Hmark.
    + unfold RegisterPendingWatch. destruct (negb _); simpl; [done | apply Hmark].
    + intros p gvk b. destruct (LoadChart_frame c chartPath) as (_ & _ & _ & -> & _).
      apply Hc.
    + intros p gvk b.
      destruct (MergeValues_frame c componentValues) as (_ & _ & _ & -> & _).
      apply Hc.
Qed.

Lemma afterLifecycleCalls_pendingWithin (calls : list LifecycleCall)
    (c : HelmManagedComponent) :
  pendingWithin c (Watches c) →
  pendingWithin (afterLifecycleCalls c calls) (Watches c)
  ∧ Watches (afterLifecycleCalls c calls) = Watches c.
Proof.
  revert c. induction calls as [|call calls IH]; intros c Hc; [done|]. simpl.
  destruct (afterLifecycleCall_frame c call) as (_ & _ & Hw & _).
  simpl in Hw. rewrite <- Hw. apply IH. rewrite Hw.
  by apply afterLifecycleCall_pendingWithin.
Qed.

(** X10.  [AddWatches] returns no error.  Afterwards a descriptor is
    pending exactly when it is one of the component's watches and of a
    custom type (its group is not one of the built-in groups), or was
    pending before; the built-in types among the watches are never made
    pending.  A second [AddWatches] right after the first changes nothing. *)
Theorem AddWatches_pending (c : HelmManagedComponent) :
  (AddWatches c).1 = None
  ∧ (∀ gvk, isPending (AddWatches c).2 gvk = true
            ↔ (gvk ∈ Watches c ∧ isBuiltInType gvk = false) ∨ isPending c gvk = true)
  ∧ (∀ gvk, isBuiltInType gvk = true → isPending c gvk = false →
            isPending (AddWatches c).2 gvk = false)
  ∧ AddWatches (AddWatches c).2 = AddWatches c.
Proof.
  split; [done|]. split; [|split].
  - intros gvk. rewrite isPending_AddWatches.
    rewrite orb_true_iff, andb_true_iff, bool_decide_eq_true, negb_true_iff. done.
  - intros gvk Hb Hp. rewrite isPending_AddWatches, Hb, Hp.
    by rewrite andb_false_r.
  - unfold AddWatches. simpl. f_equal. unfold set_pendingWatches. simpl. f_equal.
    f_equal. apply map_eq. intros gvk. rewrite !foldl_addWatch_lookup.
    by destruct (bool_decide (gvk ∈ Watches c) && negb (isBuiltInType gvk)).
Qed.

(** X11.  [AddWatches] is a set-up, not a refresh: when it is called
    again after a watched custom type has been promoted by
    [RegisterPendingWatch], the descriptor is pending once more. *)
Theorem AddWatches_again (c : HelmManagedComponent) (crd : CustomResourceDefinition)
    (gvk : GroupVersionKind) :
  gvk ∈ Watches c → isBuiltInType gvk = false → matchesCRD gvk crd →
  let promoted := (RegisterPendingWatch (AddWatches c).2 crd).2 in
  isPending (AddWatches c).2 gvk = true
  ∧ isPending promoted gvk = false
  ∧ isPending (AddWatches promoted).2 gvk = true.
Proof.
  intros Hin Hcustom Hm. apply matchesCRD_crdGVK in Hm. subst gvk. cbv zeta.
  assert (Watches (RegisterPendingWatch (AddWatches c).2 crd).2 = Watches c) as Hw.
  { unfold RegisterPendingWatch. by destruct (negb _). }
  split; [|split].
  - rewrite isPending_AddWatches, Hcustom. simpl.
    by rewrite (bool_decide_eq_true_2 _ Hin).
  - unfold RegisterPendingWatch. rewrite HasPendingWatchForCRD_isPending.
    destruct (isPending (AddWatches c).2 (crdGVK crd)) eqn:Hp; simpl; [|done].
    rewrite isPending_MarkWatchRegistered. by case_decide.
  - rewrite isPending_AddWatches, Hw, Hcustom. simpl.
    by rewrite (bool_decide_eq_true_2 _ Hin).
Qed.

(** X12.  Over the life of a component that starts without pending watches
    (as [Register] creates it), after every sequence of [AddWatches] and
    later calls: the pending map holds only descriptors that are pending,
    so [HasPendingWatches] is true exactly when some descriptor is pending;
    and only custom types among the component's watches are ever pending. *)
Theorem HasPendingWatches_pending (c : HelmManagedComponent)
    (calls : list LifecycleCall) :
  HasPendingWatches c = false →
  let c' := afterLifecycleCalls c calls in
  (HasPendingWatches c' = true ↔ ∃ gvk, isPending c' gvk = true)
  ∧ (∀ gvk, isPending c' gvk = true → gvk ∈ Watches c ∧ isBuiltInType gvk = false)
  ∧ ((∀ gvk, gvk ∈ Watches c → isBuiltInType gvk = true) →
       HasPendingWatches c' = false).
Proof.
  intros Hnone. simpl.
  assert (pendingWithin c (Watches c)) as Hc.
  { intros p gvk b Hp Hgvk. unfold HasPendingWatches in Hnone. rewrite Hp in Hnone.
    apply bool_decide_eq_false in Hnone.
    assert (p = ∅) as -> by (apply map_size_empty_iff; lia).
    by rewrite lookup_empty in Hgvk. }
  destruct (afterLifecycleCalls_pendingWithin calls c Hc) as [Hwithin _].
  set (c' := afterLifecycleCalls c calls) in *.
  assert (HasPendingWatches c' = true ↔ ∃ gvk, isPending c' gvk = true) as Hiff.
  { unfold HasPendingWatches, isPending.
    destruct (pendingWatches c') as [p|] eqn:Hp; [|split; [done | by intros [? ?]]].
    rewrite bool_decide_eq_true. split.
    - intros Hsize. destruct (map_choose p) as (gvk & b & Hgvk).
      { intros ->. rewrite map_size_empty in Hsize. lia. }
      exists gvk. apply bool_decide_eq_true.
      by destruct (Hwithin p gvk b Hp Hgvk) as [-> _].
    - intros [gvk Hgvk]. apply bool_decide_eq_true in Hgvk.
      assert (size p ≠ 0); [|lia]. apply map_size_non_empty_iff.
      intros ->. by rewrite lookup_empty in Hgvk. }
  assert (∀ gvk, isPending c' gvk = true →
                 gvk ∈ Watches c ∧ isBuiltInType gvk = false) as Honly.
  { intros gvk. unfold isPending.
    destruct (pendingWatches c') as [p|] eqn:Hp; [|done].
    intros Hgvk. apply bool_decide_eq_true in Hgvk.
    by destruct (Hwithin p gvk true Hp Hgvk) as [_ ?]. }
  split; [done|]. split; [done|].
  intros Hbuiltin. apply not_true_is_false. intros Hhas.
  apply Hiff in Hhas as [gvk Hgvk]. destruct (Honly gvk Hgvk) as [Hin Hcustom].
  rewrite (Hbuiltin gvk Hin) in Hcustom. done.
Qed.

(** X13.  [MarkWatchRegistered] makes its descriptor active and leaves every
    other descriptor as it was; marking twice is marking once, the order of
    two markings does not matter, and on a component without a pending map
    the call changes nothing. *)
Theorem MarkWatchRegistered_only (c : HelmManagedComponent)
    (gvk other : GroupVersionKind) :
  isPending (MarkWatchRegistered c gvk) gvk = false
  ∧ (other ≠ gvk →
       isPending (MarkWatchRegistered c gvk) other = isPending c other)
  ∧ MarkWatchRegistered (MarkWatchRegistered c gvk) gvk = MarkWatchRegistered c gvk
  ∧ MarkWatchRegistered (MarkWatchRegistered c gvk) other
    = MarkWatchRegistered (MarkWatchRegistered c other) gvk
  ∧ (pendingWatches c = None →
       pendingWatches (MarkWatchRegistered c gvk) = None).
Proof.
  split; [|split; [|split; [|split]]].
  - rewrite isPending_MarkWatchRegistered. by case_decide.
  - intros Hne. rewrite isPending_MarkWatchRegistered. by case_decide.
  - unfold MarkWatchRegistered, set_pendingWatches. simpl. f_equal.
    destruct (pendingWatches c) as [p|]; [|done]. simpl.
    by rewrite delete_delete_eq.
  - unfold MarkWatchRegistered, set_pendingWatches. simpl. f_equal.
    destruct (pendingWatches c) as [p|]; [|done]. simpl.
    by rewrite delete_delete.
  - unfold MarkWatchRegistered. simpl. by intros ->.
Qed.

(** X14.  [MapCRDToComponent] returns at most one request, named after
    the chart of the component; it returns one exactly for a resource-type
    definition whose descriptor is pending, and none any more for a
    definition that [RegisterPendingWatch] has promoted. *)
Theorem MapCRDToComponent_requests (c : HelmManagedComponent) (obj : client_Object) :
  (MapCRDToComponent c obj = [] ∨ MapCRDToComponent c obj = [ChartName c])
  ∧ (MapCRDToComponent c obj = [ChartName c]
     ↔ ∃ crd, obj = CRDObject crd ∧ isPending c (crdGVK crd) = true)
  ∧ (∀ crd, MapCRDToComponent (RegisterPendingWatch c crd).2 (CRDObject crd) = []).
Proof.
  split; [|split].
  - destruct obj as [crd|]; simpl; [|by left].
    destruct (HasPendingWatchForCRD c crd); simpl; auto.
  - destruct obj as [crd|]; simpl.
    + rewrite HasPendingWatchForCRD_isPending.
      destruct (isPending c (crdGVK crd)) eqn:Hp; simpl.
      * split; [|done]. intros _. by exists crd.
      * split; [done|]. intros (crd' & [= <-] & Hp'). congruence.
    + split; [done|]. by intros (crd & ? & _).
  - intros crd. simpl. rewrite HasPendingWatchForCRD_isPending.
    assert (isPending (RegisterPendingWatch c crd).2 (crdGVK crd) = false) as ->; [|done].
    unfold RegisterPendingWatch. rewrite HasPendingWatchForCRD_isPending.
    destruct (isPending c (crdGVK crd)) eqn:Hp; simpl; [|done].
    rewrite isPending_MarkWatchRegistered. by case_decide.
Qed.

Lemma firstServed_Some (versions : list CustomResourceDefinitionVersion)
    (name : string) :
  firstServed versions = Some name →
  ∃ i version,
    versions !! i = Some version ∧ ver_Served version = true
    ∧ name = ver_Name version
    ∧ ∀ j earlier, j < i → versions !! j = Some earlier → ver_Served earlier = false.
Proof.
  induction versions as [|v rest IH]; simpl; [done|].
  destruct (ver_Served v) eqn:Hv.
  - intros [= <-]. exists 0, v. repeat split; try done. lia.
  - intros Hrest. destruct (IH Hrest) as (i & version & Hi & Hs & Hn & Hbefore).
    exists (S i), version. repeat split; try done.
    intros [|j] earlier Hlt Hj; simpl in Hj; [by injection Hj as <-|].
    apply (Hbefore j); [lia | done].
Qed.

Lemma firstServed_None (versions : list CustomResourceDefinitionVersion) :
  firstServed versions = None →
  ∀ version, version ∈ versions → ver_Served version = false.
Proof.
  induction versions as [|v rest IH]; simpl.
  - intros _ version Hin. by apply elem_of_nil in Hin.
  - destruct (ver_Served v) eqn:Hv; [done|].
    intros Hrest version Hin. apply elem_of_cons in Hin as [->|Hin]; auto.
Qed.

(** X15.  [getServedVersion] returns the name of the first version that
    is served; when no version is served, the name of the first version;
    and the empty string for a definition without versions. *)
Theorem getServedVersion_first (crd : CustomResourceDefinition) :
  match crd_Versions crd with
  | [] => getServedVersion crd = ""
  | first :: _ =>
      (∃ i version,
         crd_Versions crd !! i = Some version ∧ ver_Served version = true
         ∧ getServedVersion crd = ver_Name version
         ∧ ∀ j earlier, j < i → crd_Versions crd !! j = Some earlier →
             ver_Served earlier = false)
      ∨ ((∀ version, version ∈ crd_Versions crd → ver_Served version = false)
         ∧ getServedVersion crd = ver_Name first)
  end.
Proof.
  unfold getServedVersion.
  destruct (firstServed (crd_Versions crd)) as [name|] eqn:Hfirst.
  - destruct (firstServed_Some _ _ Hfirst) as (i & version & Hi & Hs & -> & Hbefore).
    destruct (crd_Versions crd) as [|first rest]; [done|].
    left. by exists i, version.
  - pose proof (firstServed_None _ Hfirst) as Hnone.
    destruct (crd_Versions crd) as [|first rest]; [done|]. by right.
Qed.

(** X24.  [HasPendingWatchForCRD] compares one version only, the one
    that [getServedVersion] picks.  For a definition whose first version is
    served, the answer is the pending state of the descriptor with the
    definition's group and kind and the name of that first version; when
    that descriptor is not pending, [MapCRDToComponent] returns no request
    and [RegisterPendingWatch] changes nothing; and a descriptor with the
    name of another version is left as it is by [RegisterPendingWatch],
    pending or not. *)
Theorem HasPendingWatchForCRD_one_version (c : HelmManagedComponent)
    (crd : CustomResourceDefinition) (first : CustomResourceDefinitionVersion)
    (rest : list CustomResourceDefinitionVersion) :
  crd_Versions crd = first :: rest →
  ver_Served first = true →
  let descriptor version :=
    {| Group := crd_Group crd; Version := version; Kind := crd_Kind crd |} in
  HasPendingWatchForCRD c crd = isPending c (descriptor (ver_Name first))
  ∧ (isPending c (descriptor (ver_Name first)) = false →
       MapCRDToComponent c (CRDObject crd) = []
       ∧ RegisterPendingWatch c crd = (None, c))
  ∧ (∀ version, version ≠ ver_Name first →
       isPending (RegisterPendingWatch c crd).2 (descriptor version)
       = isPending c (descriptor version)).
Proof.
  intros Hversions Hserved descriptor.
  assert (crdGVK crd = descriptor (ver_Name first)) as Hgvk.
  { unfold crdGVK, getServedVersion. rewrite Hversions. simpl. by rewrite Hserved. }
  assert (HasPendingWatchForCRD c crd = isPending c (descriptor (ver_Name first)))
    as Hhas by by rewrite HasPendingWatchForCRD_isPending, Hgvk.
  split; [done|]. split.
  - intros Hnone. rewrite Hnone in Hhas. split.
    + simpl. by rewrite Hhas.
    + unfold RegisterPendingWatch. by rewrite Hhas.
  - intros version Hother. unfold RegisterPendingWatch.
    destruct (negb (HasPendingWatchForCRD c crd)); simpl; [done|].
    rewrite isPending_MarkWatchRegistered, Hgvk.
    case_decide as Heq; [|done]. by injection Heq.
Qed.

End lifecycle.

(** ** The catalog over sequences of calls *)

Section catalog.
Context `{Env}.

Lemma validateComponentConfig_None (config : ComponentConfig) :
  validateComponentConfig config = None →
  cfg_ChartName config ≠ "" ∧ is_Some (cfg_ValuesGenerator config).
Proof.
  unfold validateComponentConfig. case_bool_decide; [done|].
  destruct (cfg_ValuesGenerator config); [|done]. intros _. split; [done | by eexists].
Qed.

Lemma afterRegistryCall_complete (r : HelmManagedComponentRegistry)
    (call : RegistryCall) :
  complete r → complete (afterRegistryCall r call).
Proof.
  intros Hr. destruct call as [name config|name spec|name call]; simpl.
  - unfold Register.
    destruct (validateComponentConfig config) as [bad|] eqn:Hvalid; [done|].
    apply validateComponentConfig_None in Hvalid as [Hname Hgen].
    destruct (r !! name) as [dup|]; [done|].
    destruct (load_err (LoadChart _ _)) as [lerr|] eqn:Hload; [done|]. simpl.
    intros other c. unfold GetComponent, HelmManagedComponentRegistry.
    destruct (decide (name = other)) as [->|Hne].
    + rewrite lookup_insert_eq. intros [= <-].
      destruct (LoadChart_frame
                  {| ChartName := cfg_ChartName config; Chart := None;
                     ValuesGenerator := cfg_ValuesGenerator config;
                     Watches := cfg_Watches config;
                     RHOAIValues := None; pendingWatches := Some ∅ |}
                  (cfg_ChartName config)) as (-> & -> & _ & -> & _ & Hchart).
      split; [by apply Hchart|]. by repeat split.
    + rewrite lookup_insert_ne by done. apply Hr.
  - unfold Render. destruct (GetComponent r name) as [c|] eqn:Hget; [|done].
    destruct (ValuesGenerator c) as [generate|]; [|done].
    destruct (generate spec) as [componentValues|gerr]; [|done].
    pose proof (MergeValues_frame c componentValues) as Hframe.
    destruct (MergeValues c componentValues) as [finalValues c']. simpl in Hframe.
    destruct Hframe as (Hn & Hg & _ & Hp & Hc).
    assert (complete (<[name := c']> r)) as Hcomplete.
    { intros other d. unfold GetComponent, HelmManagedComponentRegistry.
      destruct (decide (name = other)) as [->|Hne].
      - rewrite lookup_insert_eq. intros [= <-]. rewrite Hn, Hg, Hp, Hc.
        by apply (Hr other).
      - rewrite lookup_insert_ne by done. apply Hr. }
    by destruct (RenderTemplates c' finalValues).
  - destruct (GetComponent r name) as [c|] eqn:Hget; [|done].
    intros other d. unfold GetComponent, HelmManagedComponentRegistry.
    destruct (decide (name = other)) as [->|Hne].
    + rewrite lookup_insert_eq. intros [= <-].
      destruct (afterLifecycleCall_frame c call) as (-> & -> & _ & Hc & Hp).
      destruct (Hr other c Hget) as (? & ? & ? & ?). auto.
    + rewrite lookup_insert_ne by done. apply Hr.
Qed.

Lemma afterRegistryCalls_complete (calls : list RegistryCall)
    (r : HelmManagedComponentRegistry) :
  complete r → complete (afterRegistryCalls r calls).
Proof.
  revert r. induction calls as [|call calls IH]; intros r Hr; [done|].
  simpl. apply IH. by apply afterRegistryCall_complete.
Qed.

(** X6.  A catalog that starts empty and is only worked on through
    [Register], [Render] and the methods of the components that
    [GetComponent] hands out holds complete components: each has a chart,
    a values generator, a chart name and a pending map.  On such a catalog
    [Render] never calls a nil generator (it does not panic), and when it
    fails it is not for want of a chart. *)
Theorem Render_never_panics (calls : list RegistryCall) (name : string) (spec : Spec) :
  let r := afterRegistryCalls NewHelmManagedComponentRegistry calls in
  (Render r name spec).1 ≠ Panics
  ∧ (∀ c, GetComponent r name = Some c →
          is_Some (Chart c) ∧ is_Some (ValuesGenerator c)
          ∧ ChartName c ≠ "" ∧ is_Some (pendingWatches c))
  ∧ (∀ c values, GetComponent r name = Some c →
          RenderTemplates c values ≠ Err (fmt_Errorf "chart not loaded")).
Proof.
  simpl.
  assert (complete (afterRegistryCalls NewHelmManagedComponentRegistry calls)) as Hr.
  { apply afterRegistryCalls_complete. intros other c.
    unfold GetComponent, NewHelmManagedComponentRegistry. intros Hget.
    by apply (lookup_empty_Some (M := gmap string)) in Hget. }
  split; [|split].
  - unfold Render. destruct (GetComponent _ name) as [c|] eqn:Hget; [|done].
    destruct (Hr name c Hget) as (_ & [generate ->] & _).
    destruct (generate spec) as [componentValues|gerr]; [|done].
    destruct (MergeValues c componentValues) as [finalValues c'].
    by destruct (RenderTemplates c' finalValues).
  - intros c. apply Hr.
  - intros c values Hget. destruct (Hr name c Hget) as ([chart Hchart] & _).
    unfold RenderTemplates. rewrite Hchart.
    destruct (engine_Render chart values) as [manifests|err]; [|done].
    pose proof (filterManifest_fold manifests) as Hfold.
    destruct (map_fold filterManifest (Ok ∅) manifests) as [filtered|ferr] eqn:Hf;
      [done|].
    intros [= ->]. revert Hf. clear.
    apply (map_fold_weak_ind
      (λ (acc : result (gmap string string)) (m : gmap string string),
         acc ≠ Err (fmt_Errorf "chart not loaded"))); [done|].
    intros i x m acc _ IH. destruct acc as [filtered|err]; simpl; [|done].
    destruct (shouldExcludeFile i); [done|]. by destruct (validateYAML x).
Qed.

End catalog.

(** ** The values generator of Langfuse *)

(** X16.  [LangfuseValuesFromSpec] returns values for every non-nil
    [*DSCLangfuse], and the features of the specification can be read back
    from them; the DevFlags and the management state of the specification
    leave no trace in the values.  For a specification of another type it
    returns an error whose text holds
    [expected *componentsv1alpha1.DSCLangfuse], and it panics on the nil
    pointer. *)
Theorem LangfuseValuesFromSpec_features (langfuseSpec : v1alpha1.DSCLangfuse) :
  (∃ values,
     LangfuseValuesFromSpec (DSCLangfusePointer (Some langfuseSpec)) = Returns (Ok values)
     ∧ featuresOf values = Some (v1alpha1.Features (v1alpha1.dsc_Spec langfuseSpec))
     ∧ ∀ other,
         v1alpha1.Features (v1alpha1.dsc_Spec other)
         = v1alpha1.Features (v1alpha1.dsc_Spec langfuseSpec) →
         LangfuseValuesFromSpec (DSCLangfusePointer (Some other)) = Returns (Ok values))
  ∧ (∀ typeName,
       ∃ err, LangfuseValuesFromSpec (OtherSpec typeName) = Returns (Err err)
              ∧ strings_Contains (Error err) "expected *componentsv1alpha1.DSCLangfuse"
                = true)
  ∧ LangfuseValuesFromSpec (DSCLangfusePointer None) = Panics.
Proof.
  split; [|split; [|done]].
  - eexists. split; [done|]. split.
    + by destruct langfuseSpec as [state [devFlags [experimental tracing size]]].
    + intros other Hsame. simpl. by rewrite Hsame.
  - intros typeName. eexists. split; [done|].
    apply strings_Contains_app. by exists "", (", got " ++ typeName).
Qed.

Section generator_merge.
Context `{Env}.

Lemma coalesceAt_table (t : gmap string value) (val : option value) :
  ∃ t', coalesceAt (Some (VTable t)) val = Some (VTable t')
        ∧ ∀ k, ∃ lower, t' !! k = coalesceAt (t !! k) lower.
Proof.
  destruct val as [v|]; simpl.
  - destruct v; try (exists t; split; [done|]; intros k; by exists None).
    exists (coalesceTablesFullKey t m). split; [done|].
    intros k. exists (m !! k). apply coalesceTablesFullKey_lookup.
  - exists t. split; [done|]. intros k. by exists None.
Qed.

Lemma tableAt_coalesce (t t' sub : gmap string value) (key : string) :
  (∀ k, ∃ lower, t' !! k = coalesceAt (t !! k) lower) →
  t !! key = Some (VTable sub) →
  ∃ sub', tableAt t' key = Some sub'
          ∧ ∀ k, ∃ lower, sub' !! k = coalesceAt (sub !! k) lower.
Proof.
  intros Ht Hsub. destruct (Ht key) as [lower Hkey]. rewrite Hsub in Hkey.
  destruct (coalesceAt_table sub lower) as (sub' & Heq & Hsub').
  exists sub'. split; [|done]. unfold tableAt. by rewrite Hkey, Heq.
Qed.

Lemma scalar_coalesce (t t' : gmap string value) (key : string) (v : value) :
  (∀ k, ∃ lower, t' !! k = coalesceAt (t !! k) lower) →
  t !! key = Some v → isScalar v = true →
  t' !! key = Some v.
Proof.
  intros Ht Hv Hscalar. destruct (Ht key) as [lower ->]. rewrite Hv.
  apply coalesceAt_scalar; [by apply isScalar_not_table | by apply isScalar_not_nil].
Qed.

(** X17.  Whatever the chart defaults and the platform overrides hold, the
    values that [MergeValues] yields for the values of
    [LangfuseValuesFromSpec] spell out the features of the specification:
    the two flags and the storage size as the specification has it, the
    empty string included.  ([CoalesceTables] is the function of the Helm
    library as module [chartutil] has it.) *)
Theorem MergeValues_keeps_features (c : HelmManagedComponent) (chart : chart_Chart)
    (langfuseSpec : v1alpha1.DSCLangfuse) (values : Values) :
  Chart c = Some chart →
  LangfuseValuesFromSpec (DSCLangfusePointer (Some langfuseSpec)) = Returns (Ok values) →
  featuresOf (MergeValues c values).1
  = Some (v1alpha1.Features (v1alpha1.dsc_Spec langfuseSpec)).
Proof.
  intros Hc [= <-].
  destruct langfuseSpec as [state [devFlags [experimental tracing size]]]. simpl.
  set (features := {[ "experimentalEnabled" := VBool experimental;
                      "tracingEnabled" := VBool tracing ]} : gmap string value).
  set (persistence := {[ "size" := VString size ]} : gmap string value).
  set (langfuse := {[ "features" := VTable features;
                      "persistence" := VTable persistence ]} : gmap string value).
  set (values := Some {[ "langfuse" := VTable langfuse ]} : Values).
  pose proof (MergeValues_valueAt_lower c chart values "langfuse" Hc) as Htop.
  assert (valueAt values "langfuse" = Some (VTable langfuse)) as Hvalues by reflexivity.
  rewrite Hvalues in Htop.
  destruct (coalesceAt_table langfuse (valueAt (MergeValues c None).1 "langfuse"))
    as (langfuse' & Heq & Hlangfuse).
  rewrite Heq in Htop.
  destruct (MergeValues c values).1 as [top|]; [|done]. simpl in Htop.
  destruct (tableAt_coalesce langfuse langfuse' features "features" Hlangfuse eq_refl)
    as (features' & Hf & Hfeatures).
  destruct (tableAt_coalesce langfuse langfuse' persistence "persistence" Hlangfuse eq_refl)
    as (persistence' & Hp & Hpersistence).
  pose proof (scalar_coalesce features features' "experimentalEnabled" _
                Hfeatures eq_refl eq_refl) as He.
  pose proof (scalar_coalesce features features' "tracingEnabled" _
                Hfeatures eq_refl eq_refl) as Ht.
  pose proof (scalar_coalesce persistence persistence' "size" _
                Hpersistence eq_refl eq_refl) as Hs.
  assert (tableAt top "langfuse" = Some langfuse') as Hl
    by (unfold tableAt; by rewrite Htop).
  unfold featuresOf. simpl. rewrite Hl. simpl.
  rewrite Hf. simpl. rewrite Hp. simpl. by rewrite He, Ht, Hs.
Qed.

End generator_merge.

(** ** The storage size and the admission webhook *)

Section webhook.
Import regexp langfuse.

Lemma Matches_digit_inv (s : string) :
  Matches digit s ↔ ∃ c, s = String c "" ∧ isDigit c = true.
Proof.
  unfold digit, isDigit. rewrite Matches_class_inv. simpl.
  split; intros (c & -> & Hc); exists c; split; try done.
  - by rewrite orb_false_r in Hc.
  - by rewrite orb_false_r.
Qed.

Lemma Matches_digits (s : string) : Matches (OpStar digit) s ↔ allDigits s = true.
Proof.
  split.
  - intros Hm. remember (OpStar digit) as r eqn:Hr.
    induction Hm; try done. injection Hr as ->.
    apply Matches_digit_inv in Hm1 as (c & -> & Hc).
    rewrite string_app_cons, string_app_nil_l. simpl. rewrite Hc. by apply IHHm2.
  - induction s as [|c s IH]; simpl; intros Hd; [constructor|].
    apply andb_true_iff in Hd as [Hc Hs].
    change (String c s) with (String c "" ++ s). constructor; [|by apply IH].
    apply Matches_digit_inv. eauto.
Qed.

Lemma Matches_number (s : string) : Matches (OpPlus digit) s ↔ isNumber s.
Proof.
  unfold OpPlus, isNumber. rewrite Matches_concat_inv. split.
  - intros (s1 & s2 & -> & H1 & H2).
    apply Matches_digit_inv in H1 as (c & -> & Hc). apply Matches_digits in H2.
    rewrite string_app_cons, string_app_nil_l. split; [done|]. simpl. by rewrite Hc.
  - intros [Hne Hd]. destruct s as [|c s]; [done|]. simpl in Hd.
    apply andb_true_iff in Hd as [Hc Hs].
    exists (String c ""), s. split; [done|]. split.
    + apply Matches_digit_inv. eauto.
    + by apply Matches_digits.
Qed.

Lemma Matches_unit (s : string) :
  Matches (OpConcat
             (OpCharClass [("E", "E"); ("P", "P"); ("T", "T");
                           ("G", "G"); ("M", "M"); ("K", "K")]%char)
             (OpQuest (OpLiteral "i"))) s
  ↔ isUnit s.
Proof.
  unfold isUnit, units. rewrite Matches_concat_inv. split.
  - intros (s1 & s2 & -> & H1 & H2).
    apply Matches_class_inv in H1 as (c & -> & Hc).
    apply Matches_quest_inv in H2. rewrite Matches_literal_inv in H2.
    exists (String c ""). split.
    + simpl in Hc. rewrite !orb_true_iff, !inRange_single in Hc.
      rewrite !elem_of_cons.
      destruct Hc as [->|[->|[->|[->|[->|[->|?]]]]]]; [tauto..|done].
    + destruct H2 as [->| ->]; [by right | left; by rewrite string_app_nil_r].
  - intros (u & Hu & Hs). rewrite !elem_of_cons, elem_of_nil in Hu.
    assert (∃ c, u = String c "" ∧
                 inClass c [("E", "E"); ("P", "P"); ("T", "T");
                            ("G", "G"); ("M", "M"); ("K", "K")]%char = true)
      as (c & -> & Hc).
    { destruct Hu as [->|[->|[->|[->|[->|[->|[]]]]]]]; eexists; split; done. }
    destruct Hs as [->| ->].
    + exists (String c ""), "". split; [by rewrite string_app_nil_r|]. split.
      * apply Matches_class_inv; eauto.
      * apply Matches_quest_inv. by right.
    + exists (String c ""), "i". split; [done|]. split.
      * apply Matches_class_inv; eauto.
      * apply Matches_quest_inv. left. by apply Matches_literal_inv.
Qed.

Lemma validateStorageSize_Matches (size : string) :
  validateStorageSize size = None ↔ Matches pattern size.
Proof.
  unfold validateStorageSize, MatchString. rewrite <- matchText_Matches.
  by destruct (matchText pattern size).
Qed.

Lemma Matches_pattern (size : string) :
  Matches pattern size
  ↔ ∃ whole fraction unit,
      size = whole ++ fraction ++ unit
      ∧ isNumber whole
      ∧ (fraction = "" ∨ ∃ decimals, fraction = "." ++ decimals ∧ isNumber decimals)
      ∧ (unit = "" ∨ isUnit unit).
Proof.
  unfold pattern. rewrite Matches_concat_inv. split.
  - intros (whole & rest & -> & Hwhole & Hrest).
    apply Matches_concat_inv in Hrest as (fraction & unit & -> & Hfraction & Hunit).
    exists whole, fraction, unit. split; [done|].
    split; [by apply Matches_number|]. split.
    + apply Matches_quest_inv in Hfraction as [Hfraction|?]; [|by left]. right.
      apply Matches_concat_inv in Hfraction as (dot & decimals & -> & Hdot & Hdec).
      apply Matches_literal_inv in Hdot as ->. exists decimals.
      split; [done | by apply Matches_number].
    + apply Matches_quest_inv in Hunit as [Hunit|?]; [|by left]. right.
      by apply Matches_unit.
  - intros (whole & fraction & unit & -> & Hwhole & Hfraction & Hunit).
    exists whole, (fraction ++ unit). split; [done|].
    split; [by apply Matches_number|].
    apply Matches_concat_inv. exists fraction, unit. split; [done|]. split.
    + apply Matches_quest_inv. destruct Hfraction as [?|(decimals & -> & Hdec)]; [by right|].
      left. apply Matches_concat_inv. exists ".", decimals. split; [done|].
      split; [by apply Matches_literal_inv | by apply Matches_number].
    + apply Matches_quest_inv. destruct Hunit as [?|Hunit]; [by right|].
      left. by apply Matches_unit.
Qed.

(** X18.  [validateStorageSize] accepts exactly the sizes made of a number
    (one or more digits), an optional fraction (a dot and one or more
    digits) and an optional unit (one of E, P, T, G, M, K, alone or followed
    by [i]); the empty string is turned down. *)
Theorem validateStorageSize_accepts (size : string) :
  (validateStorageSize size = None
   ↔ ∃ whole fraction unit,
       size = whole ++ fraction ++ unit
       ∧ isNumber whole
       ∧ (fraction = "" ∨ ∃ decimals, fraction = "." ++ decimals ∧ isNumber decimals)
       ∧ (unit = "" ∨ isUnit unit))
  ∧ is_Some (validateStorageSize "").
Proof.
  split; [|by eexists].
  by rewrite validateStorageSize_Matches, Matches_pattern.
Qed.

(** X19.  Every size that the pattern of the schema of [StorageSize] admits
    is accepted by [validateStorageSize]; the webhook also accepts sizes that
    the schema turns down, those without a unit and those with a fraction. *)
Theorem validateStorageSize_schema (size : string) :
  matchText schemaPattern size = true →
  validateStorageSize size = None
  ∧ (validateStorageSize "500" = None ∧ matchText schemaPattern "500" = false)
  ∧ (validateStorageSize "1.5Gi" = None ∧ matchText schemaPattern "1.5Gi" = false).
Proof.
  intros Hschema. split; [|by split].
  apply validateStorageSize_Matches, Matches_pattern.
  apply matchText_Matches in Hschema. unfold schemaPattern in Hschema.
  apply Matches_concat_inv in Hschema as (whole & unit & -> & Hwhole & Hunit).
  exists whole, "", unit. split; [done|].
  split; [by apply Matches_number|]. split; [by left|].
  right. by apply Matches_unit.
Qed.

End webhook.

Section validator.
Import langfuse.

Lemma checkManifests_None (i : nat) (manifests : list common.ManifestsConfig) :
  checkManifests i manifests = None
  ↔ ∀ manifest, manifest ∈ manifests → common.URI manifest ≠ "".
Proof.
  revert i. induction manifests as [|m rest IH]; intros i; simpl.
  - split; [|done]. intros _ manifest Hin. by apply elem_of_nil in Hin.
  - case_bool_decide as Huri.
    + split; [done|]. intros Hall. exfalso. apply (Hall m); [by left | done].
    + rewrite IH. split.
      * intros Hall manifest Hin. apply elem_of_cons in Hin as [->|Hin]; auto.
      * intros Hall manifest Hin. apply Hall. by right.
Qed.

(** The error of the loop names the first manifest without a URI. *)
Lemma checkManifests_Some (i : nat) (manifests : list common.ManifestsConfig)
    (err : error) :
  checkManifests i manifests = Some err →
  ∃ k manifest,
    manifests !! k = Some manifest ∧ common.URI manifest = ""
    ∧ (∀ j earlier, j < k → manifests !! j = Some earlier → common.URI earlier ≠ "")
    ∧ err = fmt_Errorf ("devFlags.manifests[" ++ pretty (i + k) ++ "].uri cannot be empty").
Proof.
  revert i. induction manifests as [|m rest IH]; intros i; simpl; [done|].
  case_bool_decide as Huri.
  - intros [= <-]. exists 0, m. split; [done|]. split; [done|]. split; [lia|].
    by rewrite Nat.add_0_r.
  - intros Hrest. apply IH in Hrest as (k & manifest & Hk & Hempty & Hbefore & ->).
    exists (S k), manifest. split; [done|]. split; [done|]. split.
    + intros [|j] earlier Hlt Hj; simpl in Hj; [by injection Hj as <-|].
      apply (Hbefore j); [lia | done].
    + by rewrite Nat.add_succ_r.
Qed.

Lemma validateLangfuse_Ok (langfuse : v1alpha1.Langfuse) (warnings : Warnings) :
  validateLangfuse langfuse = Ok warnings
  ↔ acceptable langfuse ∧ warnings = warningsOf langfuse.
Proof.
  unfold validateLangfuse, acceptable, warningsOf.
  destruct langfuse as [name [devFlags [experimental tracing size]]]. simpl.
  change v1alpha1.LangfuseInstanceName with "default-langfuse".
  case_bool_decide as Hname; simpl; [|split; [done | tauto]].
  assert ((if negb (bool_decide (size = "")) then validateStorageSize size else None)
          = None ↔ size = "" ∨ validateStorageSize size = None) as Hsize.
  { case_bool_decide; simpl; [tauto|]. split; [by right | by intros [?|?]]. }
  destruct (if negb (bool_decide (size = "")) then validateStorageSize size else None)
    as [serr|] eqn:Hs.
  { split; [done|]. intros [(_ & Hok & _) _]. apply Hsize in Hok. done. }
  assert (size = "" ∨ validateStorageSize size = None) as Hsz by by apply Hsize.
  destruct devFlags as [[manifests]|]; simpl.
  - destruct manifests as [|m rest].
    + simpl. split.
      * intros [= <-]. split; [|by rewrite app_nil_r].
        split; [done|]. split; [done|]. intros ? manifest [= <-] Hin.
        by apply elem_of_nil in Hin.
      * intros [_ ->]. by rewrite app_nil_r.
    + rewrite bool_decide_eq_true_2 by (simpl; lia).
      rewrite (bool_decide_eq_false_2 (m :: rest = [])) by done.
      destruct (checkManifests 0 (m :: rest)) as [err|] eqn:Hcheck.
      * split; [done|]. intros [(_ & _ & Hall) _]. 
        assert (checkManifests 0 (m :: rest) = None) as Hnone.
        { apply checkManifests_None. intros manifest Hin. by apply (Hall _ _ eq_refl). }
        congruence.
      * pose proof (proj1 (checkManifests_None _ _) Hcheck) as Hall. split.
        -- intros [= <-]. split; [|by destruct experimental].
           split; [done|]. split; [done|]. intros ? manifest [= <-]. apply Hall.
        -- intros [_ ->]. by destruct experimental.
  - split.
    + intros [= <-]. split; [|by destruct experimental; rewrite ?app_nil_r].
      split; [done|]. split; [done|]. by intros ? ? [=].
    + intros [_ ->]. by destruct experimental.
Qed.

(** X20.  [ValidateUpdate] looks at the new object only and decides as
    [ValidateCreate] does.  An object is admitted exactly when it is a
    Langfuse named [default-langfuse] whose storage size is empty or
    accepted by [validateStorageSize] and whose DevFlags manifests all have
    a URI; the warnings are then the one for experimental features, if they
    are enabled, followed by the one for DevFlags manifests, if there are
    any.  [ValidateDelete] admits every object. *)
Theorem ValidateCreate_admits (oldObj obj : runtime_Object) (warnings : Warnings) :
  ValidateUpdate oldObj obj = ValidateCreate obj
  ∧ (ValidateCreate obj = Returns (Ok warnings)
     ↔ ∃ langfuse, obj = LangfusePointer (Some langfuse)
                   ∧ acceptable langfuse ∧ warnings = warningsOf langfuse)
  ∧ ValidateDelete obj = Returns (Ok []).
Proof.
  split; [done|]. split; [|done].
  destruct obj as [[langfuse|]|typeName]; simpl.
  - split.
    + intros [= Hok]. apply validateLangfuse_Ok in Hok. eauto.
    + intros (l & [= <-] & Hok). f_equal. by apply validateLangfuse_Ok.
  - split; [done | by intros (l & ? & _)].
  - split; [done | by intros (l & ? & _)].
Qed.

(** X21.  The checks of [validateLangfuse] in their order.  A name other
    than [default-langfuse] is reported whatever the rest of the object
    holds.  Under the right name, a storage size that is set and not
    accepted is reported with the error of [validateStorageSize] as its
    cause.  When name and storage size pass, an error names the index of the
    first DevFlags manifest whose URI is empty.  An error comes without
    warnings. *)
Theorem validateLangfuse_rejects (langfuse : v1alpha1.Langfuse) :
  let size := v1alpha1.StorageSize (v1alpha1.Features (v1alpha1.langfuse_Spec langfuse)) in
  (v1alpha1.langfuse_Name langfuse ≠ "default-langfuse" →
   validateLangfuse langfuse
   = Err (fmt_Errorf ("Langfuse name must be default-langfuse, got "
                        ++ v1alpha1.langfuse_Name langfuse)))
  ∧ (v1alpha1.langfuse_Name langfuse = "default-langfuse" →
     ∀ cause, size ≠ "" → validateStorageSize size = Some cause →
       ∃ err, validateLangfuse langfuse = Err err
              ∧ errors_Is err cause = true
              ∧ Error err = "invalid storageSize: " ++ Error cause)
  ∧ (v1alpha1.langfuse_Name langfuse = "default-langfuse" →
     size = "" ∨ validateStorageSize size = None →
     ∀ err, validateLangfuse langfuse = Err err →
       ∃ devFlags k manifest,
         v1alpha1.DevFlags (v1alpha1.langfuse_Spec langfuse) = Some devFlags
         ∧ common.Manifests devFlags !! k = Some manifest
         ∧ common.URI manifest = ""
         ∧ (∀ j earlier, j < k → common.Manifests devFlags !! j = Some earlier →
              common.URI earlier ≠ "")
         ∧ Error err = "devFlags.manifests[" ++ pretty k ++ "].uri cannot be empty").
Proof.
  unfold validateLangfuse.
  destruct langfuse as [name [devFlags [experimental tracing size]]]. simpl.
  change v1alpha1.LangfuseInstanceName with "default-langfuse".
  split; [|split].
  - intros Hname. by rewrite bool_decide_eq_false_2.
  - intros -> cause Hset Hbad. rewrite bool_decide_eq_true_2 by done. simpl.
    rewrite (bool_decide_eq_false_2 (size = "")) by done. simpl. rewrite Hbad.
    eexists. split; [done|]. split; [|done].
    simpl. rewrite errors_Is_refl. apply orb_true_r.
  - intros -> Hsize err. rewrite bool_decide_eq_true_2 by done. simpl.
    assert ((if negb (bool_decide (size = "")) then validateStorageSize size else None)
            = None) as ->.
    { case_bool_decide; simpl; [done|]. by destruct Hsize. }
    destruct devFlags as [[manifests]|]; simpl; [|done].
    case_bool_decide; [|done].
    destruct (checkManifests 0 manifests) as [cerr|] eqn:Hcheck; [|done].
    intros [= <-].
    apply checkManifests_Some in Hcheck as (k & manifest & Hk & Hempty & Hbefore & ->).
    exists {| common.Manifests := manifests |}, k, manifest. simpl.
    split; [done|]. split; [done|]. split; [done|]. split; [done|]. done.
Qed.

End validator.

(** ** The status conditions of the reconciler *)

Section conditions.
Import langfuse.

Lemma replaceCondition_Some (conditions replaced : list common.Condition)
    (condition : common.Condition) :
  replaceCondition conditions condition = Some replaced →
  find (hasType (common.cond_Type condition)) replaced = Some condition
  ∧ filter (λ c, common.cond_Type c ≠ common.cond_Type condition) replaced
    = filter (λ c, common.cond_Type c ≠ common.cond_Type condition) conditions
  ∧ length replaced = length conditions
  ∧ common.cond_Type <$> replaced = common.cond_Type <$> conditions
  ∧ replaceCondition replaced condition = Some replaced.
Proof.
  revert replaced. induction conditions as [|c rest IH]; intros replaced; simpl; [done|].
  case_bool_decide as Htype.
  - intros [= <-]. simpl. unfold hasType at 1.
    rewrite !bool_decide_eq_true_2 by done.
    rewrite !filter_cons_False by (by intros ?).
    rewrite Htype. done.
  - destruct (replaceCondition rest condition) as [rest'|] eqn:Hrest; [|done].
    intros [= <-]. destruct (IH rest' eq_refl) as (Hfind & Hfilter & Hlen & Htypes & Hagain).
    simpl. unfold hasType at 1. rewrite !bool_decide_eq_false_2 by done.
    rewrite !filter_cons_True by done. rewrite Hfilter, Hlen, Hagain.
    change (list_fmap _ _ common.cond_Type rest') with (common.cond_Type <$> rest').
    by rewrite Htypes.
Qed.

Lemma replaceCondition_None (conditions : list common.Condition)
    (condition : common.Condition) :
  replaceCondition conditions condition = None
  ↔ common.cond_Type condition ∉ common.cond_Type <$> conditions.
Proof.
  induction conditions as [|c rest IH]; simpl.
  - split; [|done]. intros _. apply not_elem_of_nil.
  - rewrite not_elem_of_cons. case_bool_decide as Htype.
    + split; [done|]. by intros [? _].
    + destruct (replaceCondition rest condition) as [rest'|]; simpl.
      * split; [done|]. intros [_ Hnot]. by apply IH in Hnot.
      * split; [|done]. intros _. split; [done|]. by apply IH.
Qed.

Lemma find_hasType_None (type : string) (conditions : list common.Condition) :
  type ∉ common.cond_Type <$> conditions → find (hasType type) conditions = None.
Proof.
  induction conditions as [|c rest IH]; simpl; [done|].
  rewrite not_elem_of_cons. intros [Hne Hrest]. unfold hasType at 1.
  rewrite bool_decide_eq_false_2 by done. by apply IH.
Qed.

Lemma find_app_None {A : Type} (f : A → bool) (l1 l2 : list A) :
  find f l1 = None → find f (l1 ++ l2) = find f l2.
Proof.
  induction l1 as [|x l1 IH]; simpl; [done|]. by destruct (f x).
Qed.

Lemma filter_other_types (type : string) (conditions : list common.Condition) :
  type ∉ common.cond_Type <$> conditions →
  filter (λ c, common.cond_Type c ≠ type) conditions = conditions.
Proof.
  induction conditions as [|c rest IH]; simpl; [done|].
  rewrite not_elem_of_cons. intros [Hne Hrest].
  rewrite filter_cons_True by done. by rewrite IH.
Qed.

Lemma updateStatusCondition_find (now : Z) (conditions : list common.Condition)
    (condition : common.Condition) :
  find (hasType (common.cond_Type condition))
    (updateStatusCondition now conditions condition)
  = Some (stamped now condition).
Proof.
  unfold updateStatusCondition. fold (stamped now condition).
  change (common.cond_Type condition) with (common.cond_Type (stamped now condition)).
  destruct (replaceCondition conditions (stamped now condition)) as [replaced|] eqn:Hr.
  - by destruct (replaceCondition_Some _ _ _ Hr) as (Hfind & _).
  - apply replaceCondition_None in Hr.
    rewrite find_app_None by by apply find_hasType_None.
    simpl. unfold hasType. by rewrite bool_decide_eq_true_2.
Qed.

(** X22.  After [updateStatusCondition] the first condition of the given
    type is the given condition, stamped with the current time whether or
    not its status changed; the conditions of the other types are
    the same, in the same order; the list has grown by one when no condition
    of that type was there, and has kept its length otherwise; and a second
    call with the same condition at the same time changes nothing. *)
Theorem updateStatusCondition_sets (now : Z) (conditions : list common.Condition)
    (condition : common.Condition) :
  let type := common.cond_Type condition in
  let updated := updateStatusCondition now conditions condition in
  find (hasType type) updated = Some (stamped now condition)
  ∧ filter (λ c, common.cond_Type c ≠ type) updated
    = filter (λ c, common.cond_Type c ≠ type) conditions
  ∧ length updated
    = (if bool_decide (type ∈ common.cond_Type <$> conditions)
       then length conditions else S (length conditions))
  ∧ updateStatusCondition now updated condition = updated.
Proof.
  simpl. unfold updateStatusCondition. fold (stamped now condition).
  change (common.cond_Type condition) with (common.cond_Type (stamped now condition)).
  destruct (replaceCondition conditions (stamped now condition)) as [replaced|] eqn:Hr.
  - destruct (replaceCondition_Some _ _ _ Hr) as (Hfind & Hfilter & Hlen & Htypes & Hagain).
    split; [done|]. split; [done|]. split.
    + rewrite bool_decide_eq_true_2; [done|].
      destruct (decide (common.cond_Type (stamped now condition)
                          ∈ common.cond_Type <$> conditions)) as [|Hnot]; [done|].
      apply replaceCondition_None in Hnot. congruence.
    + by rewrite Hagain.
  - apply replaceCondition_None in Hr.
    assert (replaceCondition (conditions ++ [stamped now condition])%list
              (stamped now condition)
            = Some (conditions ++ [stamped now condition])%list) as Hagain.
    { clear -Hr. induction conditions as [|c rest IH]; simpl.
      - by rewrite bool_decide_eq_true_2.
      - simpl in Hr. apply not_elem_of_cons in Hr as [Hne Hrest].
        rewrite bool_decide_eq_false_2 by done. by rewrite IH. }
    split; [|split; [|split]].
    + rewrite find_app_None by by apply find_hasType_None.
      simpl. unfold hasType. by rewrite bool_decide_eq_true_2.
    + rewrite filter_app, filter_cons_False by (by intros ?).
      by rewrite filter_nil, app_nil_r.
    + rewrite bool_decide_eq_false_2 by done. rewrite length_app. simpl. lia.
    + by rewrite Hagain.
Qed.

(** X23.  [updateStatusCondition] keeps the types of the conditions
    pairwise distinct: when no two conditions of the status share a type,
    no two conditions share one afterwards, and the condition of the given
    type is then the only one of its type. *)
Theorem updateStatusCondition_unique (now : Z) (conditions : list common.Condition)
    (condition : common.Condition) :
  NoDup (common.cond_Type <$> conditions) →
  let updated := updateStatusCondition now conditions condition in
  NoDup (common.cond_Type <$> updated)
  ∧ ∀ c, c ∈ updated → common.cond_Type c = common.cond_Type condition →
         c = stamped now condition.
Proof.
  intros Hnodup. simpl.
  assert (NoDup (common.cond_Type <$> updateStatusCondition now conditions condition))
    as Hupdated.
  { unfold updateStatusCondition. fold (stamped now condition).
    destruct (replaceCondition conditions (stamped now condition)) as [replaced|] eqn:Hr.
    - destruct (replaceCondition_Some _ _ _ Hr) as (_ & _ & _ & -> & _). done.
    - apply replaceCondition_None in Hr. rewrite fmap_app. simpl.
      apply NoDup_app. split; [done|]. split; [|apply NoDup_singleton].
      intros type Hin Hlast. apply list_elem_of_singleton in Hlast. by subst. }
  split; [done|].
  pose proof (updateStatusCondition_find now conditions condition) as Hfind.
  intros c Hc Htype.
  apply find_some in Hfind as [Hin _].
  apply list_elem_of_In in Hin.
  apply list_elem_of_lookup in Hc as [i Hi]. apply list_elem_of_lookup in Hin as [j Hj].
  assert (i = j) as ->.
  { eapply (NoDup_lookup _ _ _ (common.cond_Type c) Hupdated).
    - by rewrite list_lookup_fmap, Hi.
    - by rewrite list_lookup_fmap, Hj, Htype. }
  congruence.
Qed.

End conditions.

(** ** What [Render] leaves alone, and the mock controller *)

Section frames.
Context `{Env}.

(** X25.  [Render] writes to the catalog at most under its name: the
    entries under all other names and the set of names are as before, and
    the component under the name keeps its chart name, generator, watches
    and pending watches, and with nil or empty overrides its override tree
    too.  The catalog is unchanged when no component is registered under the
    name, when the generator returns an error, and when the overrides and
    the generated values are both empty, so that nothing is merged.  (The
    chart is left out: a merge may write to tables of the chart defaults
    that an earlier merge has put into the override tree.) *)
Theorem Render_frame (r : HelmManagedComponentRegistry) (name : string) (spec : Spec) :
  let r' := (Render r name spec).2 in
  (∀ other, other ≠ name → GetComponent r' other = GetComponent r other)
  ∧ (∀ other, is_Some (GetComponent r' other) ↔ is_Some (GetComponent r other))
  ∧ (∀ c, GetComponent r name = Some c →
       ∃ c', GetComponent r' name = Some c'
             ∧ ChartName c' = ChartName c
             ∧ ValuesGenerator c' = ValuesGenerator c ∧ Watches c' = Watches c
             ∧ pendingWatches c' = pendingWatches c
             ∧ (nonEmpty (RHOAIValues c) = false → RHOAIValues c' = RHOAIValues c))
  ∧ (GetComponent r name = None → r' = r)
  ∧ (∀ c generate err,
       GetComponent r name = Some c → ValuesGenerator c = Some generate →
       generate spec = Err err → r' = r)
  ∧ (∀ c generate componentValues,
       GetComponent r name = Some c → ValuesGenerator c = Some generate →
       generate spec = Ok componentValues →
       nonEmpty (RHOAIValues c) = false → nonEmpty componentValues = false →
       r' = r).
Proof.
  simpl.
  assert (∀ c, GetComponent r name = Some c →
            (Render r name spec).2 = r
            ∨ ∃ componentValues,
                (Render r name spec).2 = <[name := (MergeValues c componentValues).2]> r)
    as Hcases.
  { intros c Hget. unfold Render. rewrite Hget.
    destruct (ValuesGenerator c) as [generate|]; [|by left].
    destruct (generate spec) as [componentValues|gerr]; [|by left].
    right. exists componentValues.
    destruct (MergeValues c componentValues) as [finalValues c'].
    by destruct (RenderTemplates c' finalValues). }
  assert (GetComponent r name = None → (Render r name spec).2 = r) as Hnone.
  { intros Hget. unfold Render. by rewrite Hget. }
  assert (∀ c generate err,
            GetComponent r name = Some c → ValuesGenerator c = Some generate →
            generate spec = Err err → (Render r name spec).2 = r) as Hfail.
  { intros c generate err Hget Hgen Herr. unfold Render.
    by rewrite Hget, Hgen, Herr. }
  assert (∀ c componentValues,
            nonEmpty (RHOAIValues c) = false →
            (MergeValues c componentValues).2 = c) as Hkept.
  { intros c componentValues Hempty. unfold MergeValues.
    destruct (Chart c); [|done]. by rewrite Hempty. }
  unfold GetComponent, HelmManagedComponentRegistry in *.
  split; [|split; [|split; [|split; [|split]]]].
  - intros other Hother. destruct (r !! name) as [c|] eqn:Hget.
    + destruct (Hcases c eq_refl) as [->|[componentValues ->]]; [done|].
      by rewrite lookup_insert_ne.
    + by rewrite Hnone.
  - intros other. destruct (r !! name) as [c|] eqn:Hget.
    + destruct (Hcases c eq_refl) as [->|[componentValues ->]]; [done|].
      destruct (decide (name = other)) as [<-|Hne].
      * rewrite lookup_insert_eq, Hget. split; intros _; by eexists.
      * by rewrite lookup_insert_ne.
    + by rewrite Hnone.
  - intros c Hget. rewrite Hget in Hcases.
    destruct (Hcases c eq_refl) as [->|[componentValues ->]].
    + exists c. by rewrite Hget.
    + exists (MergeValues c componentValues).2. rewrite lookup_insert_eq.
      destruct (MergeValues_frame c componentValues) as (? & ? & ? & ? & _).
      repeat (split; [done|]).
      intros Hempty. by rewrite Hkept.
  - done.
  - exact Hfail.
  - intros c generate componentValues Hget Hgen _ Hempty _.
    rewrite Hget in Hcases.
    destruct (Hcases c eq_refl) as [->|[componentValues' ->]]; [done|].
    rewrite Hkept by done. by apply insert_id.
Qed.

End frames.

(** X26.  The mock controller counts no watch: after any sequence of
    [Watch] calls on a new [MockController], each of which returns no
    error, [WatchCount] is 0, while [GetPredicates] returns the predicates
    of all the calls in their order. *)
Theorem MockController_counts_nothing {Predicate : Type}
    (calls : list (list Predicate)) :
  let m := foldl (λ m predicates, (Watch m predicates).2) NewMockController calls in
  WatchCount m = 0
  ∧ GetPredicates m = concat calls
  ∧ ∀ predicates, (Watch m predicates).1 = None.
Proof.
  simpl.
  assert (∀ m : MockController Predicate,
            let m' := foldl (λ m predicates, (Watch m predicates).2) m calls in
            mock_watches m' = mock_watches m
            ∧ mock_predicates m' = (mock_predicates m ++ concat calls)%list) as Hfold.
  { induction calls as [|predicates calls IH]; intros m; simpl.
    - split; [done | by rewrite app_nil_r].
    - destruct (IH (Watch m predicates).2) as [Hw Hp]. split; [exact Hw|].
      etrans; [exact Hp|]. simpl. by rewrite <- app_assoc. }
  destruct (Hfold NewMockController) as [Hw Hp]. simpl in *.
  unfold WatchCount, GetPredicates. rewrite Hw, Hp. done.
Qed.

(** ** The further properties at work in the demo world *)

(** Registering [langfuse] in the empty catalog: the archive loads, the
    directory is not asked for. *)
Lemma Register_stores_witness :
  reg_err (Register (H := Demo.world) NewHelmManagedComponentRegistry "langfuse"
             (Demo.config "langfuse")) = None
  ∧ reg_loads (Register (H := Demo.world) NewHelmManagedComponentRegistry "langfuse"
                 (Demo.config "langfuse")) = ["charts/langfuse.tgz"].
Proof.
  destruct (Register_stores (H := Demo.world) NewHelmManagedComponentRegistry
              "langfuse" (Demo.config "langfuse") Demo.langfuseChart)
    as (Herr & Hloads & _).
  - reflexivity.
  - discriminate.
  - by eexists.
  - left. reflexivity.
  - split; [exact Herr | exact Hloads].
Defined.

(** No chart [missing] is on disk, neither packed nor unpacked. *)
Lemma Register_chart_load_failed_witness :
  ∃ e, reg_err (Register (H := Demo.world) NewHelmManagedComponentRegistry "missing"
                  (Demo.config "missing")) = Some e
       ∧ errors_Is e ErrChartLoadFailed = true.
Proof.
  destruct (Register_chart_load_failed (H := Demo.world) NewHelmManagedComponentRegistry
              "missing" (Demo.config "missing")
              (fmt_Errorf "open charts/missing.tgz: no such file or directory")
              (fmt_Errorf "open charts/missing: no such file or directory"))
    as ((e & He & His & _) & _).
  - reflexivity.
  - discriminate.
  - by eexists.
  - reflexivity.
  - reflexivity.
  - exists e. by split.
Defined.

(** [Render] for a name that was never registered. *)
Lemma Render_errors_witness :
  errors_Is
    (fmt_Errorf_w "component not found: component 'nope' not registered"
       ErrComponentNotFound) ErrComponentNotFound = true.
Proof.
  apply (proj2 (proj1 (Render_errors (H := Demo.world) NewHelmManagedComponentRegistry
                         "nope" 1%Z _ eq_refl))).
  reflexivity.
Defined.

(** Loading the chart [langfuse] into a component: its platform override
    [replicas: 2] is taken over. *)
Lemma LoadChart_stores_witness :
  RHOAIValues (load_component
                 (LoadChart (H := Demo.world) (Demo.component None None) "langfuse"))
  = Some {[ "replicas" := VInt 2 ]}.
Proof.
  apply (LoadChart_stores (H := Demo.world) (Demo.component None None) "langfuse"
           Demo.langfuseChart).
  left. reflexivity.
Defined.

(** The chart [garbled] rendered with empty values: the deployment is kept,
    the notes are left out. *)
Lemma RenderTemplates_filters_witness :
  RenderTemplates (H := Demo.world) Demo.garbled
    (Some {[ "Values" := VTable ∅ ]})
  = Ok {[ "garbled/templates/deployment.yaml" := "{}" ]}
  ∧ ({[ "garbled/templates/deployment.yaml" := "{}" ]} : gmap string string)
      !! "garbled/templates/NOTES.txt" = None.
Proof.
  destruct (RenderTemplates_filters (H := Demo.world) Demo.garbled
              Demo.garbledChart (Some {[ "Values" := VTable ∅ ]})
              {[ "garbled/templates/deployment.yaml" := "{}";
                 "garbled/templates/NOTES.txt" := "{}" ]}) as [_ Hlookup].
  - reflexivity.
  - reflexivity.
  - assert (RenderTemplates (H := Demo.world) Demo.garbled
              (Some {[ "Values" := VTable ∅ ]})
            = Ok {[ "garbled/templates/deployment.yaml" := "{}" ]}) as Hrender
      by reflexivity.
    split; [exact Hrender|].
    exact (Hlookup _ Hrender "garbled/templates/NOTES.txt").
Defined.

(** The custom resource of the watch tests is pending after the set-up,
    active after its promotion, and pending again after a second set-up. *)
Lemma AddWatches_again_witness :
  isPending
    (AddWatches (H := Demo.world)
       (RegisterPendingWatch (AddWatches (H := Demo.world) Demo.watching).2
          Demo.customResourceDefinition).2).2 Demo.customResource = true.
Proof.
  apply (AddWatches_again (H := Demo.world) Demo.watching
           Demo.customResourceDefinition Demo.customResource).
  - do 2 apply list_elem_of_further. apply list_elem_of_here.
  - reflexivity.
  - by repeat split.
Defined.

(** After the set-up of the watch tests some descriptor is pending. *)
Lemma HasPendingWatches_pending_witness :
  ∃ gvk, isPending (afterLifecycleCalls (H := Demo.world) Demo.watching [CallAddWatches])
           gvk = true.
Proof.
  apply (proj1 (proj1 (HasPendingWatches_pending (H := Demo.world) Demo.watching
                         [CallAddWatches] eq_refl))).
  reflexivity.
Defined.

(** A specification without storage size, over chart defaults that set
    one: the merged values carry the empty size. *)
Lemma MergeValues_keeps_features_witness :
  featuresOf
    (MergeValues (H := Demo.world) (Demo.component Demo.langfuseDefaults (Some ∅))
       (Some {[ "langfuse" := VTable
                  {[ "features" := VTable
                       {[ "experimentalEnabled" := VBool false;
                          "tracingEnabled" := VBool false ]};
                     "persistence" := VTable {[ "size" := VString "" ]} ]} ]})).1
  = Some {| v1alpha1.ExperimentalFeaturesEnabled := false;
            v1alpha1.TracingEnabled := false;
            v1alpha1.StorageSize := "" |}.
Proof.
  apply (MergeValues_keeps_features (H := Demo.world)
           (Demo.component Demo.langfuseDefaults (Some ∅))
           (Demo.testChart Demo.langfuseDefaults) Demo.unsetSpec _ eq_refl eq_refl).
Defined.

(** A size that the schema admits. *)
Lemma validateStorageSize_schema_witness :
  langfuse.validateStorageSize "10Gi" = None.
Proof.
  apply (validateStorageSize_schema "10Gi"). reflexivity.
Defined.

(** A status with the condition [Ready], updated with [Ready] again. *)
Lemma updateStatusCondition_unique_witness :
  NoDup (common.cond_Type
           <$> langfuse.updateStatusCondition 100
                 [Demo.ready "False" "ChartRenderError"]
                 (Demo.ready "True" "ResourcesApplied")).
Proof.
  apply (updateStatusCondition_unique 100 [Demo.ready "False" "ChartRenderError"]
           (Demo.ready "True" "ResourcesApplied")).
  apply NoDup_singleton.
Defined.

(** The custom resource is watched at [v1alpha1]; a definition that serves
    [v1] first and [v1alpha1] second does not match it. *)
Lemma HasPendingWatchForCRD_one_version_witness :
  isPending (AddWatches (H := Demo.world) Demo.watching).2 Demo.customResource = true
  ∧ HasPendingWatchForCRD (AddWatches (H := Demo.world) Demo.watching).2
      Demo.twoVersionDefinition = false.
Proof.
  split; [reflexivity|].
  rewrite (proj1 (HasPendingWatchForCRD_one_version (H := Demo.world)
             (AddWatches Demo.watching).2 Demo.twoVersionDefinition
             {| ver_Name := "v1"; ver_Served := true |}
             [ {| ver_Name := "v1alpha1"; ver_Served := true |} ]
             eq_refl eq_refl)).
  reflexivity.
Defined.
